(** * LogosAPI: a shallow embedding of the JavaScript bridge of [index.js]

    The class [LogosAPI] wraps the C ABI of [liblogos_core].  Everything the
    class does not own (the native runtime, the file system, the clock, the
    user's callbacks, the JavaScript built-ins it calls) is gathered in an
    interface, [Runtime]; the class itself becomes a record, [Bridge], and its
    methods become computations in a state-and-exception monad that also keeps
    a trace of every effect that leaves the class. *)

From Stdlib Require Import Ascii.
From stdpp Require Import gmap strings list pretty.

Open Scope string_scope.
Open Scope Z_scope.

(** ** Outcomes of a JavaScript call *)

(** A call either returns a value or throws; a thrown [Error] is kept as its
    [message].  [Diverge] is the outcome of a loop that was still running when
    its fuel ran out; no [catch] sees it. *)
Inductive result (A : Type) : Type :=
| Ret (a : A)
| Throw (message : string)
| Diverge.
Arguments Ret {A} a.
Arguments Throw {A} message.
Arguments Diverge {A}.

(** What an operation of the environment (a native entry point, a built-in, a
    function of the caller) does when called: it returns or it throws. *)
Inductive outcome (A : Type) : Type :=
| Returns (a : A)
| Throws (message : string).
Arguments Returns {A} a.
Arguments Throws {A} message.

Definition to_result {A} (o : outcome A) : result A :=
  match o with
  | Returns a => Ret a
  | Throws e => Throw e
  end.

(** ** Strings *)

(** A JavaScript string is a sequence of UTF-16 code units; a string here is
    the UTF-8 encoding of the same text, one byte per [ascii].  The names and
    messages the class handles are compared, concatenated and cut at ASCII
    characters, which are one byte and one code unit each. *)

(** [s.slice(n)] for a non-negative [n]. *)
Fixpoint slice (n : nat) (s : string) : string :=
  match n, s with
  | O, _ => s
  | S n', String _ s' => slice n' s'
  | S _, EmptyString => EmptyString
  end.

(** [s.startsWith(p)]. *)
Fixpoint startsWith (p s : string) : bool :=
  match p, s with
  | EmptyString, _ => true
  | String a p', String b s' => if Ascii.eqb a b then startsWith p' s' else false
  | String _ _, EmptyString => false
  end.

(** [s.substr(start, len)]. *)
Definition substr (start len : nat) (s : string) : string :=
  String.substring start len s.

(** The number of bytes that encode the first character of [s], read off its
    first byte: one for ASCII, two from [0xC0], three from [0xE0], four from
    [0xF0].  A character of one to three bytes is one UTF-16 code unit; a
    character of four bytes is a pair of surrogates. *)
Definition first_char_bytes (s : string) : nat :=
  match s with
  | EmptyString => 0
  | String c _ =>
      let b := N_of_ascii c in
      if (b <? 192)%N then 1
      else if (b <? 224)%N then 2
      else if (b <? 240)%N then 3
      else 4
  end.

(** ** Values that cross the boundary *)

(** User functions, promises and timers are identified by a number. *)
Definition FnId := nat.
Definition PromiseId := nat.
Definition TimerId := nat.
Bind Scope nat_scope with FnId PromiseId TimerId.

(** The functions the class receives or builds as completion handlers. *)
Inductive Handler : Type :=
| HUser (f : FnId)
    (* a function of the caller, passed to callPluginMethodAsync or
       registerEventListener *)
| HForward (listener : FnId)
    (* the arrow function built in the [on<Event>] branch of the plugin proxy *)
| HSettle (p : PromiseId).
    (* the arrow function built in the method branch: resolve or reject *)

(** The closure made by [_createFFICallback]: it captures the handler and the
    identifier. *)
Record FFICallback : Type := mkFFICallback {
  userCallback : Handler;
  callbackId : string
}.

(** The native entry points declared in [_loadLibrary], by return type. *)
Inductive VoidCall : Type :=
| logos_core_init (flags : Z)
| logos_core_set_plugins_dir (dir : string)
| logos_core_start
| logos_core_cleanup
| logos_core_call_plugin_method_async
    (pluginName methodName params : string) (cb : FFICallback)
| logos_core_register_event_listener
    (pluginName eventName : string) (cb : FFICallback)
| logos_core_process_events.

Inductive IntCall : Type :=
| logos_core_exec
| logos_core_load_plugin (pluginName : string)
| logos_core_unload_plugin (pluginName : string).

Inductive StrCall : Type :=
| logos_core_process_plugin (pluginPath : string).

Inductive PtrCall : Type :=
| logos_core_get_loaded_plugins
| logos_core_get_known_plugins.

Inductive NativeCall : Type :=
| NVoid (c : VoidCall)
| NInt (c : IntCall)
| NStr (c : StrCall)
| NPtr (c : PtrCall).

(** The third argument of a handler. *)
Record Meta : Type := mkMeta {
  meta_callbackId : string;
  timestamp : string;
  rawMessage : string
}.

Section Embedding.

(** [World] is the state of everything outside the class; [Json] the values
    [JSON.parse] makes; [Num] the JavaScript numbers; [Obj] the values that
    are neither null, undefined, a boolean, a number nor a string. *)
Context {World Json Num Obj : Type}.

(** What a handler receives as its message. *)
Inductive Value : Type :=
| VStr (s : string)              (* the raw text *)
| VJson (j : Json)               (* the text decoded by JSON.parse *)
| VError (message : string)      (* an Error object *)
| VErrorObj (message : Value).   (* { error: true, message } *)

(** Argument lists of a user function. *)
Inductive UserArgs : Type :=
| ArgsHandler (success : bool) (message : Value) (meta : Meta)
| ArgsListener (payload : Value).

(** An argument of a reflective method call. *)
Inductive JSValue : Type :=
| JNull
| JUndefined
| JBool (b : bool)
| JNumber (n : Num)
| JString (s : string)
| JOther (o : Obj).

(** A field that holds a string or [undefined]. *)
Inductive StrOrUndef : Type :=
| SStr (s : string)
| SUndefined.

Record Inferred : Type := mkInferred {
  type : string;
  value : StrOrUndef
}.

Record Param : Type := mkParam {
  param_name : string;
  param_value : StrOrUndef;
  param_type : string
}.

(** ** The environment of the class *)

Class Runtime : Type := {
  (* process, path, fs *)
  process_platform : string;
  process_cwd : string;
  dirname : string;
  fs_existsSync : World -> string -> bool;
  path_resolve : list string -> string;
  path_join : list string -> string;
  (* ffi-napi and the native library *)
  ffi_Library : World -> string -> World * outcome unit;
  native_void : World -> VoidCall -> World * outcome unit;
  native_int : World -> IntCall -> World * outcome Z;
  native_str : World -> StrCall -> World * outcome (option string);
  native_ptr : World -> PtrCall -> World * outcome Z;
  (* ref-napi: a pointer is an address, null is 0 *)
  sizeof_pointer : Z;
  readPointer : World -> Z -> Z -> Z;
  readCString : World -> Z -> string;
  (* built-ins *)
  JSON_parse : string -> option Json;
  JSON_stringify : Obj -> outcome (option string);
  JSON_stringify_params : list Param -> string;
  String_of_obj : Obj -> outcome string;
  String_of_number : Num -> string;
  Number_isInteger : Num -> bool;
  Number_toString36 : Num -> string;
  Number_literal : Z -> Num;
  String_toLowerCase : string -> string;
  Date_now : World -> World * Num;
  Date_toISOString : World -> World * string;
  Math_random : World -> World * Num;
  (* the caller's functions *)
  user_call : World -> FnId -> UserArgs -> World * outcome unit
}.

Context `{RT : Runtime}.

(** ** The state *)

(** Everything observable that leaves the class. *)
Inductive Event : Type :=
| ELibrary (libPath : string)
| ENative (c : NativeCall)
| EUserCall (f : FnId) (args : UserArgs)
| ESettle (p : PromiseId) (fulfilled : bool) (v : Value)
| EConsoleError (text : string) (error : string)
| ESetInterval (t : TimerId) (interval : Num)
| EClearInterval (t : TimerId).

Record Options : Type := mkOptions {
  libPath : option string;
  pluginsDir : option string;
  autoInit : option bool
}.

Record Library : Type := mkLibrary { lib_path : string }.

Record CallbackRecord : Type := mkCallbackRecord {
  cr_callback : Handler;
  cr_ffiCallback : FFICallback
}.

Record ListenerRecord : Type := mkListenerRecord {
  lr_pluginName : string;
  lr_eventName : string;
  lr_callback : Handler;
  lr_ffiCallback : FFICallback
}.

Record PluginProxy : Type := mkPluginProxy { proxy_pluginName : string }.

(** The fields of a [LogosAPI] instance. *)
Record Bridge : Type := mkBridge {
  options : Options;
  LogosCore : option Library;
  isInitialized : bool;
  isStarted : bool;
  eventProcessingInterval : option TimerId;
  callbacks : gmap string CallbackRecord;
  eventListeners : gmap string ListenerRecord;
  _pluginProxies : gmap string PluginProxy
}.

Record State : Type := mkState {
  bridge : Bridge;
  world : World;
  trace : list Event;
  timers : gset TimerId;      (* the intervals the host still runs *)
  next_timer : TimerId;
  next_promise : PromiseId
}.

Definition set_bridge (f : Bridge -> Bridge) (s : State) : State :=
  mkState (f (bridge s)) (world s) (trace s) (timers s) (next_timer s)
          (next_promise s).

Definition set_world (w : World) (s : State) : State :=
  mkState (bridge s) w (trace s) (timers s) (next_timer s) (next_promise s).

Definition log (e : Event) (s : State) : State :=
  mkState (bridge s) (world s) (trace s ++ [e]) (timers s) (next_timer s)
          (next_promise s).

Definition with_LogosCore (l : option Library) (b : Bridge) : Bridge :=
  mkBridge (options b) l (isInitialized b) (isStarted b)
           (eventProcessingInterval b) (callbacks b) (eventListeners b)
           (_pluginProxies b).

Definition with_isInitialized (v : bool) (b : Bridge) : Bridge :=
  mkBridge (options b) (LogosCore b) v (isStarted b)
           (eventProcessingInterval b) (callbacks b) (eventListeners b)
           (_pluginProxies b).

Definition with_isStarted (v : bool) (b : Bridge) : Bridge :=
  mkBridge (options b) (LogosCore b) (isInitialized b) v
           (eventProcessingInterval b) (callbacks b) (eventListeners b)
           (_pluginProxies b).

Definition with_eventProcessingInterval (v : option TimerId) (b : Bridge)
  : Bridge :=
  mkBridge (options b) (LogosCore b) (isInitialized b) (isStarted b) v
           (callbacks b) (eventListeners b) (_pluginProxies b).

Definition with_callbacks (m : gmap string CallbackRecord) (b : Bridge)
  : Bridge :=
  mkBridge (options b) (LogosCore b) (isInitialized b) (isStarted b)
           (eventProcessingInterval b) m (eventListeners b) (_pluginProxies b).

Definition with_eventListeners (m : gmap string ListenerRecord) (b : Bridge)
  : Bridge :=
  mkBridge (options b) (LogosCore b) (isInitialized b) (isStarted b)
           (eventProcessingInterval b) (callbacks b) m (_pluginProxies b).

Definition with_pluginProxies (m : gmap string PluginProxy) (b : Bridge)
  : Bridge :=
  mkBridge (options b) (LogosCore b) (isInitialized b) (isStarted b)
           (eventProcessingInterval b) (callbacks b) (eventListeners b) m.

(** ** The monad of methods *)

Definition M (A : Type) : Type := State -> State * result A.

Definition ret {A} (a : A) : M A := fun s => (s, Ret a).

Definition throw {A} (message : string) : M A := fun s => (s, Throw message).

Definition bind {A B} (m : M A) (k : A -> M B) : M B :=
  fun s =>
    match m s with
    | (s', Ret a) => k a s'
    | (s', Throw e) => (s', Throw e)
    | (s', Diverge) => (s', Diverge)
    end.

(** [try { m } catch (error) { h error.message }]: what [m] did before it
    threw stays done. *)
Definition try_catch {A} (m : M A) (h : string -> M A) : M A :=
  fun s =>
    match m s with
    | (s', Ret a) => (s', Ret a)
    | (s', Throw e) => h e s'
    | (s', Diverge) => (s', Diverge)
    end.

Definition get_bridge : M Bridge := fun s => (s, Ret (bridge s)).

Definition modify (f : Bridge -> Bridge) : M unit :=
  fun s => (set_bridge f s, Ret tt).

Definition emit (e : Event) : M unit := fun s => (log e s, Ret tt).

(** Run an operation of the environment on the world. *)
Definition in_world {A} (op : World -> World * A) : M A :=
  fun s => let '(w, a) := op (world s) in (set_world w s, Ret a).

Definition in_world_r {A} (op : World -> World * outcome A) : M A :=
  fun s => let '(w, r) := op (world s) in (set_world w s, to_result r).

Definition read_world {A} (op : World -> A) : M A :=
  fun s => (s, Ret (op (world s))).

Local Notation "'let*' x ':=' c1 'in' c2" := (bind c1 (fun x => c2))
  (at level 10, x pattern, c1 at level 100, c2 at level 200).

(** ** Truthiness *)

(** [!!s] for a value that is a string, null or undefined. *)
Definition truthy (o : option string) : bool :=
  match o with
  | Some s => negb (String.eqb s "")
  | None => false
  end.

(** ** Initialisation *)

Definition _getLibraryExtension : string :=
  if String.eqb process_platform "darwin" then ".dylib"
  else if String.eqb process_platform "win32" then ".dll"
  else ".so".

Definition existsSync (p : string) : M bool :=
  read_world (fun w => fs_existsSync w p).

(** [this.LogosCore.f(...)]: reading a property of [null] throws. *)
Definition null_core : string :=
  "Cannot read properties of null".

Definition core_void (c : VoidCall) : M unit :=
  let* b := get_bridge in
  match LogosCore b with
  | None => throw null_core
  | Some _ =>
      let* _ := emit (ENative (NVoid c)) in
      in_world_r (fun w => native_void w c)
  end.

Definition core_int (c : IntCall) : M Z :=
  let* b := get_bridge in
  match LogosCore b with
  | None => throw null_core
  | Some _ =>
      let* _ := emit (ENative (NInt c)) in
      in_world_r (fun w => native_int w c)
  end.

Definition core_str (c : StrCall) : M (option string) :=
  let* b := get_bridge in
  match LogosCore b with
  | None => throw null_core
  | Some _ =>
      let* _ := emit (ENative (NStr c)) in
      in_world_r (fun w => native_str w c)
  end.

Definition core_ptr (c : PtrCall) : M Z :=
  let* b := get_bridge in
  match LogosCore b with
  | None => throw null_core
  | Some _ =>
      let* _ := emit (ENative (NPtr c)) in
      in_world_r (fun w => native_ptr w c)
  end.

Definition _loadLibrary : M unit :=
  let* b := get_bridge in
  let* libPath :=
    if truthy (libPath (options b)) then ret (default "" (libPath (options b)))
    else
      let libExtension := _getLibraryExtension in
      let p1 :=
        path_resolve [dirname; "lib"; "liblogos_core" ++ libExtension] in
      let* found := existsSync p1 in
      ret (if found then p1
           else path_resolve [dirname; "../../../logos-liblogos/build/lib";
                              "liblogos_core" ++ libExtension]) in
  let* found := existsSync libPath in
  if negb found then
    throw ("Library file not found at: " ++ libPath
           ++ ". Please build the core library first.")
  else
    let* _ := emit (ELibrary libPath) in
    let* _ := in_world_r (fun w => ffi_Library w libPath) in
    modify (with_LogosCore (Some (mkLibrary libPath))).

(** The lines that pick the plugins directory; [_initializeCore] and
    [processPlugin] both carry them. *)
Definition resolvePluginsDir : M string :=
  let* b := get_bridge in
  if truthy (pluginsDir (options b)) then
    ret (default "" (pluginsDir (options b)))
  else
    let d1 := path_resolve [process_cwd; "plugins"] in
    let* found1 := existsSync d1 in
    let d2 := if found1 then d1 else path_resolve [process_cwd; "modules"] in
    let* found2 := existsSync d2 in
    ret (if found2 then d2
         else path_resolve [dirname; "../../../logos-liblogos/build/modules"]).

Definition _initializeCore : M unit :=
  let* _ := core_void (logos_core_init 0) in
  let* pluginsDir := resolvePluginsDir in
  let* found := existsSync pluginsDir in
  if negb found then
    throw ("Plugins directory not found at: " ++ pluginsDir
           ++ ". Please ensure plugins are available in your application directory.")
  else core_void (logos_core_set_plugins_dir pluginsDir).

Definition must_be_initialized : string := "LogosAPI must be initialized first".

Definition init : M bool :=
  let* b := get_bridge in
  if isInitialized b then throw "LogosAPI is already initialized"
  else
    try_catch
      (let* _ := _loadLibrary in
       let* _ := _initializeCore in
       let* _ := modify (with_isInitialized true) in
       ret true)
      (fun message => throw ("Failed to initialize LogosAPI: " ++ message)).

Definition start : M bool :=
  let* b := get_bridge in
  if negb (isInitialized b) then
    throw "LogosAPI must be initialized before starting"
  else if isStarted b then throw "LogosAPI is already started"
  else
    let* _ := core_void logos_core_start in
    let* _ := modify (with_isStarted true) in
    ret true.

(** ** Native string arrays *)

(** The [while (true)] loop of [_convertCStringArrayToJS], from index [i] with
    [result] collected so far. *)
Fixpoint convert_loop (fuel : nat) (w : World) (cStringArray : Z) (i : Z)
  (result : list string) : option (list string) :=
  match fuel with
  | O => None
  | S fuel' =>
      let stringPtr := readPointer w cStringArray (i * sizeof_pointer) in
      if stringPtr =? 0 then Some result
      else convert_loop fuel' w cStringArray (i + 1)
                        (result ++ [readCString w stringPtr])
  end.

Definition _convertCStringArrayToJS (fuel : nat) (w : World) (cStringArray : Z)
  : option (list string) :=
  if cStringArray =? 0 then Some []
  else convert_loop fuel w cStringArray 0 [].

Definition convertCStringArray (fuel : nat) (cStringArray : Z)
  : M (list string) :=
  fun s =>
    match _convertCStringArrayToJS fuel (world s) cStringArray with
    | Some l => (s, Ret l)
    | None => (s, Diverge)
    end.

(** ** Plugin queries and transitions *)

Definition getLoadedPlugins (fuel : nat) : M (list string) :=
  let* b := get_bridge in
  if negb (isInitialized b) then throw must_be_initialized
  else
    let* loadedPluginsPtr := core_ptr logos_core_get_loaded_plugins in
    convertCStringArray fuel loadedPluginsPtr.

Definition getKnownPlugins (fuel : nat) : M (list string) :=
  let* b := get_bridge in
  if negb (isInitialized b) then throw must_be_initialized
  else
    let* knownPluginsPtr := core_ptr logos_core_get_known_plugins in
    convertCStringArray fuel knownPluginsPtr.

Record PluginStatus : Type := mkPluginStatus {
  status_loaded : list string;
  status_known : list string
}.

Definition getPluginStatus (fuel : nat) : M PluginStatus :=
  let* loaded := getLoadedPlugins fuel in
  let* known := getKnownPlugins fuel in
  ret (mkPluginStatus loaded known).

Definition processPlugin (pluginName : string) : M bool :=
  let* b := get_bridge in
  if negb (isInitialized b) then throw must_be_initialized
  else
    let pluginExtension := _getLibraryExtension in
    let* pluginsDir := resolvePluginsDir in
    let pluginPath :=
      path_join [pluginsDir; pluginName ++ "_plugin" ++ pluginExtension] in
    let* result := core_str (logos_core_process_plugin pluginPath) in
    ret (truthy result).

Definition loadPlugin (pluginName : string) : M bool :=
  let* b := get_bridge in
  if negb (isInitialized b) then throw must_be_initialized
  else
    let* result := core_int (logos_core_load_plugin pluginName) in
    ret (result =? 1).

Definition unloadPlugin (pluginName : string) : M bool :=
  let* b := get_bridge in
  if negb (isInitialized b) then throw must_be_initialized
  else
    let* result := core_int (logos_core_unload_plugin pluginName) in
    ret (result =? 1).

Definition processAndLoadPlugin (pluginName : string) : M bool :=
  let* processed := processPlugin pluginName in
  if negb processed then throw ("Failed to process plugin: " ++ pluginName)
  else
    let* loaded := loadPlugin pluginName in
    if negb loaded then throw ("Failed to load plugin: " ++ pluginName)
    else ret true.

(** The record kept per plugin name by [processAndLoadPlugins]. *)
Record PluginResult : Type := mkPluginResult {
  processed : bool;
  loaded : option bool;
  error : option string
}.

(** The object [results], made by [{}]: its own properties and its
    prototype.  [proto] is [None] as long as the prototype is
    [Object.prototype], and holds the record that took its place else. *)
Record Results : Type := mkResults {
  own : gmap string PluginResult;
  proto : option PluginResult
}.

(** [const results = {}]. *)
Definition new_results : Results := mkResults ∅ None.

(** [results[pluginName] = r].  Every property of [Object.prototype] is a
    writable data property, over which the assignment creates an own
    property, except [__proto__]: that one is an accessor, and its setter
    makes the record the prototype of [results]. *)
Definition results_set (pluginName : string) (r : PluginResult)
  (results : Results) : Results :=
  if String.eqb pluginName "__proto__" then mkResults (own results) (Some r)
  else mkResults (<[pluginName := r]> (own results)) (proto results).

(** [results[pluginName]] for a name that was assigned before, as every name
    the second loop reads was by the first: the own property, or for
    [__proto__] the prototype, which the getter returns. *)
Definition results_get (pluginName : string) (results : Results)
  : option PluginResult :=
  if String.eqb pluginName "__proto__" then proto results
  else own results !! pluginName.

(** [Object.keys(results)], as a set. *)
Definition results_keys (results : Results) : gset string :=
  dom (own results).

(** [results[pluginName]] where nothing was stored. *)
Definition undefined_entry : string :=
  "Cannot read properties of undefined (reading 'processed')".

(** The body of the first loop: the record stored for [pluginName]. *)
Definition process_entry (pluginName : string) : M PluginResult :=
  try_catch
    (let* p := processPlugin pluginName in
     ret (mkPluginResult p None None))
    (fun message => ret (mkPluginResult false None (Some message))).

(** First loop: process every plugin. *)
Fixpoint process_all (pluginNames : list string) (results : Results)
  : M Results :=
  match pluginNames with
  | [] => ret results
  | pluginName :: rest =>
      let* r := process_entry pluginName in
      process_all rest (results_set pluginName r results)
  end.

(** The body of the [if] in the second loop: [r] is [results[pluginName]],
    updated in place. *)
Definition load_entry (pluginName : string) (r : PluginResult)
  : M PluginResult :=
  try_catch
    (let* l := loadPlugin pluginName in
     ret (mkPluginResult (processed r) (Some l) (error r)))
    (fun message =>
       ret (mkPluginResult (processed r) (Some false) (Some message))).

(** Second loop: load the plugins whose entry says [processed].  The record
    read is the object the first loop stored, so what the body writes to it
    shows where the record sits, own property or prototype. *)
Fixpoint load_all (pluginNames : list string) (results : Results)
  : M Results :=
  match pluginNames with
  | [] => ret results
  | pluginName :: rest =>
      match results_get pluginName results with
      | None => throw undefined_entry
      | Some r =>
          if processed r then
            let* r' := load_entry pluginName r in
            load_all rest (results_set pluginName r' results)
          else load_all rest results
      end
  end.

Definition processAndLoadPlugins (pluginNames : list string) : M Results :=
  let* results := process_all pluginNames new_results in
  load_all pluginNames results.

(** ** Asynchronous calls and event listeners *)

Definition _generateCallbackId : M string :=
  let* now := in_world Date_now in
  let* r := in_world Math_random in
  ret ("callback_" ++ String_of_number now ++ "_"
       ++ substr 2 9 (Number_toString36 r)).

Definition _createFFICallback (userCallback : Handler) (callbackId : string)
  : FFICallback :=
  mkFFICallback userCallback callbackId.

Definition callPluginMethodAsync (pluginName methodName params : string)
  (callback : Handler) : M string :=
  let* b := get_bridge in
  if negb (isInitialized b) then throw must_be_initialized
  else
    let* callbackId := _generateCallbackId in
    let ffiCallback := _createFFICallback callback callbackId in
    let* _ :=
      modify (fun b =>
        with_callbacks
          (<[callbackId := mkCallbackRecord callback ffiCallback]> (callbacks b))
          b) in
    let* _ :=
      core_void (logos_core_call_plugin_method_async pluginName methodName
                   params ffiCallback) in
    ret callbackId.

Definition registerEventListener (pluginName eventName : string)
  (callback : Handler) : M string :=
  let* b := get_bridge in
  if negb (isInitialized b) then throw must_be_initialized
  else
    let* listenerId := _generateCallbackId in
    let ffiCallback := _createFFICallback callback listenerId in
    let* _ :=
      modify (fun b =>
        with_eventListeners
          (<[listenerId :=
               mkListenerRecord pluginName eventName callback ffiCallback]>
             (eventListeners b))
          b) in
    let* _ :=
      core_void (logos_core_register_event_listener pluginName eventName
                   ffiCallback) in
    ret listenerId.

(** ** Event processing *)

Definition setInterval (interval : Num) : M TimerId :=
  fun s =>
    let t := next_timer s in
    (mkState (bridge s) (world s) (trace s ++ [ESetInterval t interval])
             ({[t]} ∪ timers s) (S t) (next_promise s),
     Ret t).

Definition clearInterval (t : TimerId) : M unit :=
  fun s =>
    (mkState (bridge s) (world s) (trace s ++ [EClearInterval t])
             (timers s ∖ {[t]}) (next_timer s) (next_promise s),
     Ret tt).

(** The arrow function handed to [setInterval]. *)
Definition interval_tick : M unit :=
  let* b := get_bridge in
  match LogosCore b with
  | Some _ => core_void logos_core_process_events
  | None => ret tt
  end.

(** The host runs the function of an interval as long as it is not cleared. *)
Definition fire_timer (t : TimerId) : M unit :=
  fun s => if decide (t ∈ timers s) then interval_tick s else (s, Ret tt).

Definition startEventProcessing (interval : option Num) : M bool :=
  let interval := default (Number_literal 100) interval in
  let* b := get_bridge in
  match eventProcessingInterval b with
  | Some _ => throw "Event processing is already running"
  | None =>
      let* t := setInterval interval in
      let* _ := modify (with_eventProcessingInterval (Some t)) in
      ret true
  end.

Definition stopEventProcessing : M bool :=
  let* b := get_bridge in
  match eventProcessingInterval b with
  | Some t =>
      let* _ := clearInterval t in
      let* _ := modify (with_eventProcessingInterval None) in
      ret true
  | None => ret false
  end.

Definition exec : M Z :=
  let* b := get_bridge in
  if negb (isInitialized b) then throw must_be_initialized
  else core_int logos_core_exec.

Definition cleanup : M unit :=
  let* _ := stopEventProcessing in
  let* b := get_bridge in
  let* _ :=
    match LogosCore b with
    | Some _ => core_void logos_core_cleanup
    | None => ret tt
    end in
  let* _ := modify (with_callbacks ∅) in
  let* _ := modify (with_eventListeners ∅) in
  let* _ := modify (with_isInitialized false) in
  modify (with_isStarted false).

(** ** The dispatcher *)

Definition call_user (f : FnId) (args : UserArgs) : M unit :=
  let* _ := emit (EUserCall f args) in
  in_world_r (fun w => user_call w f args).

(** Calling a handler with [(success, message, meta)]. *)
Definition invoke_handler (h : Handler) (success : bool) (message : Value)
  (meta : Meta) : M unit :=
  match h with
  | HUser f => call_user f (ArgsHandler success message meta)
  | HForward listener =>
      if success then call_user listener (ArgsListener message)
      else call_user listener (ArgsListener (VErrorObj message))
  | HSettle p => emit (ESettle p success message)
  end.

(** The inner [try { JSON.parse(message) } catch { message }]. *)
Definition parseMessage (message : string) : Value :=
  match JSON_parse message with
  | Some j => VJson j
  | None => VStr message
  end.

(** The function wrapped by [ffi.Callback] in [_createFFICallback], called by
    the native side with [(result, message, userData)]. *)
Definition ffi_callback (cb : FFICallback) (result : Z) (message : string)
  : M unit :=
  try_catch
    (let success := result =? 1 in
     let parsedMessage := parseMessage message in
     let* timestamp := in_world Date_toISOString in
     invoke_handler (userCallback cb) success parsedMessage
                    (mkMeta (callbackId cb) timestamp message))
    (fun error =>
       emit (EConsoleError ("Error in callback " ++ callbackId cb ++ ":")
                           error)).

(** One delivery by the native side. *)
Record Delivery : Type := mkDelivery {
  d_callback : FFICallback;
  d_result : Z;
  d_message : string
}.

Definition deliver (d : Delivery) : M unit :=
  ffi_callback (d_callback d) (d_result d) (d_message d).

Fixpoint deliver_all (ds : list Delivery) : M unit :=
  match ds with
  | [] => ret tt
  | d :: rest => let* _ := deliver d in deliver_all rest
  end.

(** ** The reflective layer *)

Definition _getPluginProxy (pluginName : string) : M PluginProxy :=
  let* b := get_bridge in
  match _pluginProxies b !! pluginName with
  | Some proxy => ret proxy
  | None =>
      let proxy := mkPluginProxy pluginName in
      let* _ :=
        modify (fun b =>
          with_pluginProxies (<[pluginName := proxy]> (_pluginProxies b)) b) in
      ret proxy
  end.

(** [s.length ? s.charAt(0).toLowerCase() + s.slice(1) : s].  [s.charAt(0)]
    is the first code unit.  When the first character is in the basic plane
    that unit is the whole character, here its one to three bytes, and the
    rest follows it.  Otherwise the unit is a high surrogate alone, which
    [toLowerCase] leaves as it is, and [s.slice(1)] begins with the low
    surrogate: the concatenation is [s] again. *)
Definition decapitalize (s : string) : string :=
  match s with
  | EmptyString => s
  | String _ _ =>
      let k := first_char_bytes s in
      if (k <? 4)%nat then String_toLowerCase (substr 0 k s) ++ slice k s
      else s
  end.

Definition _inferTypeAndValue (value : JSValue) : result Inferred :=
  match value with
  | JNull | JUndefined => Ret (mkInferred "string" (SStr ""))
  | JBool b => Ret (mkInferred "bool" (SStr (if b then "true" else "false")))
  | JNumber n =>
      if Number_isInteger n then
        Ret (mkInferred "int" (SStr (String_of_number n)))
      else Ret (mkInferred "double" (SStr (String_of_number n)))
  | JString s => Ret (mkInferred "string" (SStr s))
  | JOther o =>
      match JSON_stringify o with
      | Returns (Some text) => Ret (mkInferred "string" (SStr text))
      | Returns None => Ret (mkInferred "string" SUndefined)
      | Throws _ =>
          match String_of_obj o with
          | Returns text => Ret (mkInferred "string" (SStr text))
          | Throws e => Throw e
          end
      end
  end.

(** [toParam(arg, index)]. *)
Definition toParam (arg : JSValue) (index : nat) : result Param :=
  match _inferTypeAndValue arg with
  | Ret inferred =>
      Ret (mkParam ("arg" ++ pretty index) (value inferred) (type inferred))
  | Throw e => Throw e
  | Diverge => Diverge
  end.

(** [Array.from(args).map(toParam)], from position [index]. *)
Fixpoint map_toParam (index : nat) (args : list JSValue)
  : result (list Param) :=
  match args with
  | [] => Ret []
  | arg :: rest =>
      match toParam arg index with
      | Ret p =>
          match map_toParam (S index) rest with
          | Ret ps => Ret (p :: ps)
          | Throw e => Throw e
          | Diverge => Diverge
          end
      | Throw e => Throw e
      | Diverge => Diverge
      end
  end.

Definition makeParamsJson (args : list JSValue) : M string :=
  fun s =>
    match map_toParam 0 args with
    | Ret ps => (s, Ret (JSON_stringify_params ps))
    | Throw e => (s, Throw e)
    | Diverge => (s, Diverge)
    end.

(** A property key is a string or a symbol. *)
Inductive PropertyKey : Type :=
| PString (s : string)
| PSymbol.

(** What the [get] trap of a plugin proxy returns. *)
Inductive ProxyGet : Type :=
| GPluginName (name : string)
| GToString (text : string)               (* a function returning [text] *)
| GUndefined
| GSubscribe (property eventName : string) (* the [on<Event>] function *)
| GMethod (property : string).             (* the method-call function *)

Definition plugin_proxy_get (pluginName : string) (property : PropertyKey)
  : ProxyGet :=
  match property with
  | PSymbol => GUndefined
  | PString property =>
      if String.eqb property "pluginName" then GPluginName pluginName
      else if String.eqb property "toString" then
        GToString ("[LogosPluginProxy " ++ pluginName ++ "]")
      else if String.eqb property "then" then GUndefined
      else if startsWith "on" property && (2 <? String.length property)%nat
      then GSubscribe property (decapitalize (slice 2 property))
      else GMethod property
  end.

(** Calling the [on<Event>] function; [callback] is [None] when the argument
    is not a function. *)
Definition call_subscribe (pluginName property eventName : string)
  (callback : option FnId) : M string :=
  match callback with
  | None =>
      throw ("Callback must be a function for " ++ pluginName ++ "."
             ++ property)
  | Some listener =>
      registerEventListener pluginName eventName (HForward listener)
  end.

Definition new_Promise : M PromiseId :=
  fun s =>
    let p := next_promise s in
    (mkState (bridge s) (world s) (trace s) (timers s) (next_timer s) (S p),
     Ret p).

(** Calling the method-call function with [args]. *)
Definition call_method (pluginName property : string) (args : list JSValue)
  : M PromiseId :=
  let* p := new_Promise in
  let* _ :=
    try_catch
      (let* params := makeParamsJson args in
       let* _ := callPluginMethodAsync pluginName property params (HSettle p) in
       ret tt)
      (fun err => emit (ESettle p false (VError err))) in
  ret p.

(** A value is a function exactly when the host may call it. *)
Definition is_function (g : ProxyGet) : bool :=
  match g with
  | GToString _ | GSubscribe _ _ | GMethod _ => true
  | GPluginName _ | GUndefined => false
  end.

(** Awaiting a plugin proxy, or resolving a promise with it: the host reads
    [then]; a method-call function found there is called with the resolving
    functions [args], anything that is not a function ends the probe. *)
Definition await_proxy (pluginName : string) (args : list JSValue) : M unit :=
  match plugin_proxy_get pluginName (PString "then") with
  | GMethod property =>
      let* _ := call_method pluginName property args in ret tt
  | _ => ret tt
  end.

(** ** Construction *)

Definition new_LogosAPI (opts : Options) (w : World) : State * result unit :=
  let s :=
    mkState (mkBridge opts None false false None ∅ ∅ ∅) w [] ∅ O O in
  if default true (autoInit opts) then
    (let* _ := init in ret tt) s
  else (s, Ret tt).

(** ** Observations on traces *)

Definition is_native (e : Event) : bool :=
  match e with
  | ENative _ => true
  | _ => false
  end.

Definition is_process_call (e : Event) : bool :=
  match e with
  | ENative (NStr (logos_core_process_plugin _)) => true
  | _ => false
  end.

Definition is_load_call (e : Event) : bool :=
  match e with
  | ENative (NInt (logos_core_load_plugin _)) => true
  | _ => false
  end.

(** The native entry points invoked in a trace. *)
Definition native_calls (t : list Event) : list Event := filter is_native t.


(** The event a call of handler [h] with [(success, message, meta)] leaves in
    the trace. *)
Definition handler_event (h : Handler) (success : bool) (message : Value)
  (meta : Meta) : Event :=
  match h with
  | HUser f => EUserCall f (ArgsHandler success message meta)
  | HForward listener =>
      EUserCall listener
        (ArgsListener (if success then message else VErrorObj message))
  | HSettle p => ESettle p success message
  end.

(** The handler a trace event belongs to. *)
Definition fired (e : Event) : option Handler :=
  match e with
  | EUserCall f (ArgsHandler _ _ _) => Some (HUser f)
  | EUserCall f (ArgsListener _) => Some (HForward f)
  | ESettle p _ _ => Some (HSettle p)
  | _ => None
  end.

(** The handlers that ran, in order. *)
Definition fired_handlers (t : list Event) : list Handler := omap fired t.

(** ** Properties of calls *)

(** The call throws, and no native entry point is invoked on the way. *)
Definition fails_fast {A} (m : M A) (s : State) : Prop :=
  exists message,
    snd (m s) = Throw message
    /\ native_calls (trace (fst (m s))) = native_calls (trace s).


(** The public methods that open with the [isInitialized] check. *)
Inductive GuardedCall : Type :=
| call_start
| call_getLoadedPlugins (fuel : nat)
| call_getKnownPlugins (fuel : nat)
| call_getPluginStatus (fuel : nat)
| call_processPlugin (pluginName : string)
| call_loadPlugin (pluginName : string)
| call_unloadPlugin (pluginName : string)
| call_processAndLoadPlugin (pluginName : string)
| call_callPluginMethodAsync (pluginName methodName params : string)
    (callback : Handler)
| call_registerEventListener (pluginName eventName : string)
    (callback : Handler)
| call_exec.

Definition discard {A} (m : M A) : M unit := let* _ := m in ret tt.

Definition run_guarded (c : GuardedCall) : M unit :=
  match c with
  | call_start => discard start
  | call_getLoadedPlugins fuel => discard (getLoadedPlugins fuel)
  | call_getKnownPlugins fuel => discard (getKnownPlugins fuel)
  | call_getPluginStatus fuel => discard (getPluginStatus fuel)
  | call_processPlugin n => discard (processPlugin n)
  | call_loadPlugin n => discard (loadPlugin n)
  | call_unloadPlugin n => discard (unloadPlugin n)
  | call_processAndLoadPlugin n => discard (processAndLoadPlugin n)
  | call_callPluginMethodAsync p m params h =>
      discard (callPluginMethodAsync p m params h)
  | call_registerEventListener p e h =>
      discard (registerEventListener p e h)
  | call_exec => discard exec
  end.

(** The error messages of the lifecycle checks. *)
Definition not_initialized_message (message : string) : Prop :=
  message = must_be_initialized
  \/ message = "LogosAPI must be initialized before starting".

(** A native array of string pointers: the entries [ptrs], none of them null,
    sit at successive pointer offsets from [cStringArray] and a null entry
    follows them. *)
Definition null_terminated (w : World) (cStringArray : Z) (ptrs : list Z)
  : Prop :=
  (forall (i : nat) (p : Z),
      ptrs !! i = Some p ->
      p <> 0 /\ readPointer w cStringArray (Z.of_nat i * sizeof_pointer) = p)
  /\ readPointer w cStringArray
       (Z.of_nat (length ptrs) * sizeof_pointer) = 0.

(** ** The proxy around the instance *)

(** The fields assigned by the constructor. *)
Definition instance_fields : list string :=
  ["options"; "LogosCore"; "isInitialized"; "isStarted";
   "eventProcessingInterval"; "callbacks"; "eventListeners";
   "StringArrayPtr"; "AsyncCallback"; "_pluginProxies"].

(** The methods of the class. *)
Definition class_methods : list string :=
  ["constructor"; "init"; "_loadLibrary"; "_getLibraryExtension";
   "_initializeCore"; "start"; "getLoadedPlugins"; "getKnownPlugins";
   "getPluginStatus"; "processPlugin"; "loadPlugin"; "unloadPlugin";
   "processAndLoadPlugin"; "processAndLoadPlugins"; "callPluginMethodAsync";
   "registerEventListener"; "startEventProcessing"; "stopEventProcessing";
   "exec"; "cleanup"; "_convertCStringArrayToJS"; "_generateCallbackId";
   "_createFFICallback"; "_getPluginProxy"; "_createReflectivePluginProxy";
   "_inferTypeAndValue"].

(** [prop in target]; [inherited] tells the names that come from
    [Object.prototype]. *)
Definition in_target (inherited : string -> bool) (prop : string) : bool :=
  bool_decide (prop ∈ instance_fields)
  || bool_decide (prop ∈ class_methods)
  || inherited prop.

(** What the [get] trap of the proxy returned by the constructor gives. *)
Inductive ApiGet : Type :=
| AMember (prop : string)         (* [Reflect.get(target, prop, receiver)] *)
| AUndefined
| APlugin (proxy : PluginProxy).

Definition api_get (inherited : string -> bool) (prop : PropertyKey)
  : M ApiGet :=
  match prop with
  | PSymbol => ret AUndefined
  | PString name =>
      if in_target inherited name then ret (AMember name)
      else
        let* proxy := _getPluginProxy name in
        ret (APlugin proxy)
  end.

(** ** Sequences of operations *)

(** What can happen to an instance: a call of one of its methods, a use of a
    plugin proxy, a delivery by the native side, a tick of a timer. *)
Inductive Op : Type :=
| op_init
| op_call (c : GuardedCall)
| op_processAndLoadPlugins (pluginNames : list string)
| op_startEventProcessing (interval : option Num)
| op_stopEventProcessing
| op_cleanup
| op_getPluginProxy (pluginName : string)
| op_subscribe (pluginName property eventName : string)
    (callback : option FnId)
| op_method (pluginName property : string) (args : list JSValue)
| op_deliver (d : Delivery)
| op_tick (t : TimerId).

Definition run_op (o : Op) : M unit :=
  match o with
  | op_init => discard init
  | op_call c => run_guarded c
  | op_processAndLoadPlugins pluginNames =>
      discard (processAndLoadPlugins pluginNames)
  | op_startEventProcessing interval => discard (startEventProcessing interval)
  | op_stopEventProcessing => discard stopEventProcessing
  | op_cleanup => cleanup
  | op_getPluginProxy pluginName => discard (_getPluginProxy pluginName)
  | op_subscribe pluginName property eventName callback =>
      discard (call_subscribe pluginName property eventName callback)
  | op_method pluginName property args =>
      discard (call_method pluginName property args)
  | op_deliver d => deliver d
  | op_tick t => fire_timer t
  end.

(** The operations run one after the other; an operation that throws leaves
    the instance to the next one, an operation that never ends is the last. *)
Fixpoint run_ops (os : list Op) (s : State) : State :=
  match os with
  | [] => s
  | o :: rest =>
      match run_op o s with
      | (s', Diverge) => s'
      | (s', _) => run_ops rest s'
      end
  end.


(** The part of the state that is not the world or the trace. *)
Definition frame (s : State) : Bridge * gset TimerId * TimerId * PromiseId :=
  (bridge s, timers s, next_timer s, next_promise s).

(** A computation that only talks to the world and writes to the trace. *)
Definition keeps {A} (m : M A) : Prop :=
  forall s : State, frame (fst (m s)) = frame s.

(** What holds of an instance between operations. *)
Definition consistent (s : State) : Prop :=
  (isInitialized (bridge s) = true -> is_Some (LogosCore (bridge s)))
  /\ (isStarted (bridge s) = true -> isInitialized (bridge s) = true)
  /\ timers s
     = match eventProcessingInterval (bridge s) with
       | Some t => {[t]}
       | None => ∅
       end
  /\ (forall t : TimerId, t ∈ timers s -> (t < next_timer s)%nat)
  /\ (forall (n : string) (p : PluginProxy),
         _pluginProxies (bridge s) !! n = Some p -> proxy_pluginName p = n)
  /\ (forall (id : string) (r : CallbackRecord),
         callbacks (bridge s) !! id = Some r ->
         cr_ffiCallback r = mkFFICallback (cr_callback r) id)
  /\ (forall (id : string) (r : ListenerRecord),
         eventListeners (bridge s) !! id = Some r ->
         lr_ffiCallback r = mkFFICallback (lr_callback r) id).


(** ** Observations on a batch *)

(** A call of a native entry point goes through when the instance is
    initialized and holds its library handle. *)
Definition reaches_native (b : Bridge) : bool :=
  isInitialized b && bool_decide (is_Some (LogosCore b)).

(** [results[pluginName].processed], false where there is no record. *)
Definition processed_in (results : Results) (pluginName : string) : bool :=
  match results_get pluginName results with
  | Some r => processed r
  | None => false
  end.

(** The native call that loads [pluginName]. *)
Definition load_call (pluginName : string) : Event :=
  ENative (NInt (logos_core_load_plugin pluginName)).

(** [e] is the native call that processes the file of [pluginName] in some
    plugins directory. *)
Definition process_call_of (pluginName : string) (e : Event) : Prop :=
  exists dir : string,
    e = ENative
          (NStr (logos_core_process_plugin
                   (path_join
                      [dir; pluginName ++ "_plugin" ++ _getLibraryExtension]))).

End Embedding.

(** ** A concrete runtime

    A small environment to run the methods on: the clock is a counter, every
    path exists, the native library accepts every call, rejects the plugin
    file [/app/plugins/b_plugin.so], refuses to load the plugin [d] and
    reports the loaded plugins [chat] and [waku]; the user function [1]
    throws, every other one returns. *)
Module Demo.

(** Numbers are kept as their decimal text. *)
Definition DNum : Type := string.

Fixpoint has_dot (s : string) : bool :=
  match s with
  | EmptyString => false
  | String c s' => if Ascii.eqb c "."%char then true else has_dot s'
  end.

(** Values other than primitives: a plain object with its JSON text, a
    function, an object that refers to itself. *)
Inductive DObj : Type :=
| DPlain (json : string)
| DFunction
| DCyclic.

(** Decoded JSON is kept as the text it was decoded from; only texts that open
    an object or an array decode. *)
Definition demo_parse (text : string) : option string :=
  match text with
  | String c _ =>
      if Ascii.eqb c "{"%char || Ascii.eqb c "["%char then Some text
      else None
  | EmptyString => None
  end.

Definition lower_ascii (c : ascii) : ascii :=
  let n := N_of_ascii c in
  if (65 <=? n)%N && (n <=? 90)%N then ascii_of_N (n + 32) else c.

(** The capital letters of Latin-1 are the two bytes [0xC3], [0x80] to
    [0x9E] ([0x97], the multiplication sign, apart); the small letter is
    [0x20] further. *)
Definition latin1_capital (c d : ascii) : bool :=
  let n := N_of_ascii d in
  (N_of_ascii c =? 195)%N && (128 <=? n)%N && (n <=? 158)%N
  && negb (n =? 151)%N.

(** [toLowerCase] on ASCII and Latin-1 letters. *)
Fixpoint lower (s : string) : string :=
  match s with
  | EmptyString => EmptyString
  | String c s' =>
      match s' with
      | String d s'' =>
          if latin1_capital c d then
            String c (String (ascii_of_N (N_of_ascii d + 32)) (lower s''))
          else String (lower_ascii c) (lower s')
      | EmptyString => String (lower_ascii c) EmptyString
      end
  end.

Fixpoint join_with (sep : string) (l : list string) : string :=
  match l with
  | [] => ""
  | [x] => x
  | x :: rest => x ++ sep ++ join_with sep rest
  end.

Definition demo_stringify_param (p : Param) : string :=
  "{name:" ++ param_name p ++ ",value:"
  ++ match param_value p with SStr v => v | SUndefined => "" end
  ++ ",type:" ++ param_type p ++ "}".

Definition demo_native_str (w : Z) (c : StrCall) : Z * outcome (option string) :=
  match c with
  | logos_core_process_plugin pluginPath =>
      if String.eqb pluginPath "/app/plugins/b_plugin.so" then (w, Returns None)
      else (w, Returns (Some pluginPath))
  end.

Definition demo_native_int (w : Z) (c : IntCall) : Z * outcome Z :=
  match c with
  | logos_core_exec => (w, Returns 0)
  | logos_core_load_plugin pluginName =>
      if String.eqb pluginName "d" then (w, Returns 0) else (w, Returns 1)
  | logos_core_unload_plugin _ => (w, Returns 1)
  end.

Definition demo_native_ptr (w : Z) (c : PtrCall) : Z * outcome Z :=
  match c with
  | logos_core_get_loaded_plugins => (w, Returns 1000)
  | logos_core_get_known_plugins => (w, Returns 0)
  end.

(** Memory: at address 1000 an array of two string pointers and a null. *)
Definition demo_readPointer (w : Z) (address offset : Z) : Z :=
  if (address + offset =? 1000) then 2000
  else if (address + offset =? 1008) then 2100
  else 0.

Definition demo_readCString (w : Z) (address : Z) : string :=
  if address =? 2000 then "chat"
  else if address =? 2100 then "waku"
  else "".

Definition demo_user_call (w : Z) (f : FnId) (args : @UserArgs string)
  : Z * outcome unit :=
  if Nat.eqb f 1 then (w, Throws "boom") else (w, Returns tt).

#[export] Instance demo_runtime : @Runtime Z string DNum DObj := {|
  process_platform := "linux";
  process_cwd := "/app";
  dirname := "/sdk";
  fs_existsSync := fun _ _ => true;
  path_resolve := join_with "/";
  path_join := join_with "/";
  ffi_Library := fun w _ => (w, Returns tt);
  native_void := fun w _ => (w, Returns tt);
  native_int := demo_native_int;
  native_str := demo_native_str;
  native_ptr := demo_native_ptr;
  sizeof_pointer := 8;
  readPointer := demo_readPointer;
  readCString := demo_readCString;
  JSON_parse := demo_parse;
  JSON_stringify := fun o =>
    match o with
    | DPlain json => Returns (Some json)
    | DFunction => Returns None
    | DCyclic => Throws "Converting circular structure to JSON"
    end;
  JSON_stringify_params := fun ps =>
    "[" ++ join_with "," (map demo_stringify_param ps) ++ "]";
  String_of_obj := fun _ => Returns "[object Object]";
  String_of_number := fun n => n;
  Number_isInteger := fun n => negb (has_dot n);
  Number_toString36 := fun n => n;
  Number_literal := fun z => pretty z;
  String_toLowerCase := lower;
  Date_now := fun w => (w + 1, pretty w);
  Date_toISOString := fun w => (w, "2026-01-01T00:00:00.000Z");
  Math_random := fun w => (w + 1, "0.k3j9x2m1qz7");
  user_call := demo_user_call
|}.

Definition DState : Type := @State Z string DNum.

(** [new LogosAPI({ autoInit: false })]. *)
Definition fresh : DState :=
  fst (new_LogosAPI (mkOptions None None (Some false)) 1700000000000).

(** [new LogosAPI()]. *)
Definition ready : DState :=
  fst (new_LogosAPI (mkOptions None None None) 1700000000000).

(** [new LogosAPI()] followed by [cleanup()]. *)
Definition cleaned : DState := fst (cleanup ready).


(** [ready] after [startEventProcessing()], and after [cleanup()] then. *)
Definition pumping : DState := fst (startEventProcessing None ready).

Definition stopped : DState := fst (cleanup pumping).



(** *** A runtime that fails

    The same environment, except that the path [/missing] does not exist and
    that the native library throws on cleanup, on asynchronous calls and on
    registrations. *)
Definition faulty_native_void (w : Z) (c : VoidCall) : Z * outcome unit :=
  match c with
  | logos_core_cleanup => (w, Throws "cleanup failed")
  | logos_core_call_plugin_method_async _ _ _ _ => (w, Throws "call failed")
  | logos_core_register_event_listener _ _ _ =>
      (w, Throws "registration failed")
  | _ => (w, Returns tt)
  end.

Definition faulty_runtime : @Runtime Z string DNum DObj := {|
  process_platform := "linux";
  process_cwd := "/app";
  dirname := "/sdk";
  fs_existsSync := fun _ p => negb (String.eqb p "/missing");
  path_resolve := join_with "/";
  path_join := join_with "/";
  ffi_Library := fun w _ => (w, Returns tt);
  native_void := faulty_native_void;
  native_int := demo_native_int;
  native_str := demo_native_str;
  native_ptr := demo_native_ptr;
  sizeof_pointer := 8;
  readPointer := demo_readPointer;
  readCString := demo_readCString;
  JSON_parse := demo_parse;
  JSON_stringify := @JSON_stringify _ _ _ _ demo_runtime;
  JSON_stringify_params := @JSON_stringify_params _ _ _ _ demo_runtime;
  String_of_obj := fun _ => Returns "[object Object]";
  String_of_number := fun n => n;
  Number_isInteger := fun n => negb (has_dot n);
  Number_toString36 := fun n => n;
  Number_literal := fun z => pretty z;
  String_toLowerCase := lower;
  Date_now := fun w => (w + 1, pretty w);
  Date_toISOString := fun w => (w, "2026-01-01T00:00:00.000Z");
  Math_random := fun w => (w + 1, "0.k3j9x2m1qz7");
  user_call := demo_user_call
|}.

(** [new LogosAPI({ pluginsDir: "/missing", autoInit: false })] on the
    failing runtime. *)
Definition misconfigured : DState :=
  fst (@new_LogosAPI _ _ _ _ faulty_runtime
         (mkOptions None (Some "/missing") (Some false)) 1700000000000).

(** [new LogosAPI()] on the failing runtime. *)
Definition faulty_ready : DState :=
  fst (@new_LogosAPI _ _ _ _ faulty_runtime (mkOptions None None None)
         1700000000000).

(** The same after [startEventProcessing()]. *)
Definition faulty_pumping : DState :=
  fst (@startEventProcessing _ _ _ _ faulty_runtime None faulty_ready).

End Demo.

(** * Properties *)

Section Properties.

Context {World Json Num Obj : Type} `{RT : @Runtime World Json Num Obj}.

Local Notation "'let*' x ':=' c1 'in' c2" := (bind c1 (fun x => c2))
  (at level 10, x pattern, c1 at level 100, c2 at level 200).

Local Abbreviation State := (@State World Json Num).
Local Abbreviation M := (@M World Json Num).
Local Abbreviation Event := (@Event Json Num).

(** ** The monad *)

Lemma bind_ret {A B} (m : M A) (k : A -> M B) (s s' : State) (a : A) :
  m s = (s', Ret a) -> bind m k s = k a s'.
Proof. intros H. unfold bind. by rewrite H. Qed.

(** ** Native calls *)

(** A call through [this.LogosCore] leaves the fields of the instance alone;
    it throws on a null handle before reaching the library, and is recorded
    otherwise. *)
Lemma core_void_effect (c : VoidCall) (s : State) :
  bridge (fst (core_void c s)) = bridge s
  /\ timers (fst (core_void c s)) = timers s
  /\ match LogosCore (bridge s) with
     | None => core_void c s = (s, Throw null_core)
     | Some _ =>
         trace (fst (core_void c s)) = (trace s ++ [ENative (NVoid c)])%list
         /\ snd (core_void c s)
            = to_result (snd (native_void (world s) c))
     end.
Proof.
  unfold core_void, bind, get_bridge, emit, in_world_r, throw. simpl.
  destruct (LogosCore (bridge s)); simpl; [|done].
  by destruct (native_void (world s) c).
Qed.

Lemma core_int_effect (c : IntCall) (s : State) :
  bridge (fst (core_int c s)) = bridge s
  /\ match LogosCore (bridge s) with
     | None => core_int c s = (s, Throw null_core)
     | Some _ =>
         trace (fst (core_int c s)) = (trace s ++ [ENative (NInt c)])%list
         /\ snd (core_int c s) = to_result (snd (native_int (world s) c))
     end.
Proof.
  unfold core_int, bind, get_bridge, emit, in_world_r, throw. simpl.
  destruct (LogosCore (bridge s)); simpl; [|done].
  by destruct (native_int (world s) c).
Qed.

Lemma core_str_effect (c : StrCall) (s : State) :
  bridge (fst (core_str c s)) = bridge s
  /\ match LogosCore (bridge s) with
     | None => core_str c s = (s, Throw null_core)
     | Some _ =>
         trace (fst (core_str c s)) = (trace s ++ [ENative (NStr c)])%list
         /\ snd (core_str c s) = to_result (snd (native_str (world s) c))
     end.
Proof.
  unfold core_str, bind, get_bridge, emit, in_world_r, throw. simpl.
  destruct (LogosCore (bridge s)); simpl; [|done].
  by destruct (native_str (world s) c).
Qed.

(** Picking the plugins directory only reads. *)
Lemma resolvePluginsDir_reads (s : State) :
  exists dir, resolvePluginsDir s = (s, Ret dir).
Proof.
  unfold resolvePluginsDir, bind, get_bridge, existsSync, read_world, ret.
  simpl. destruct (truthy _); eauto.
Qed.

(** ** Plugin transitions *)

(** On an initialized instance [processPlugin] is its native call. *)
Lemma processPlugin_unfold (pluginName : string) (s : State) :
  isInitialized (bridge s) = true ->
  exists pluginPath,
    processPlugin pluginName s
    = bind (core_str (logos_core_process_plugin pluginPath))
           (fun result => ret (truthy result)) s.
Proof.
  intros Hinit. destruct (resolvePluginsDir_reads s) as [dir Hdir].
  eexists. unfold processPlugin.
  unfold bind at 1. unfold get_bridge at 1. rewrite Hinit. simpl.
  by rewrite (bind_ret _ _ _ _ _ Hdir).
Qed.

Lemma loadPlugin_unfold (pluginName : string) (s : State) :
  isInitialized (bridge s) = true ->
  loadPlugin pluginName s
  = bind (core_int (logos_core_load_plugin pluginName))
         (fun result => ret (result =? 1)) s.
Proof.
  intros Hinit. unfold loadPlugin.
  unfold bind at 1. unfold get_bridge at 1. by rewrite Hinit.
Qed.

(** What [processPlugin] does on an initialized instance. *)
Lemma processPlugin_effect (pluginName : string) (s : State) :
  isInitialized (bridge s) = true ->
  bridge (fst (processPlugin pluginName s)) = bridge s
  /\ match LogosCore (bridge s) with
     | None => processPlugin pluginName s = (s, Throw null_core)
     | Some _ =>
         exists pluginPath,
           trace (fst (processPlugin pluginName s))
           = (trace s
              ++ [ENative (NStr (logos_core_process_plugin pluginPath))])%list
     end.
Proof.
  intros Hinit.
  destruct (processPlugin_unfold pluginName s Hinit) as [pluginPath ->].
  destruct (core_str_effect (logos_core_process_plugin pluginPath) s)
    as [Hb Hc].
  unfold bind.
  destruct (core_str _ s) as [s1 r] eqn:Hcall. simpl in Hb, Hc.
  split; [by destruct r|].
  destruct (LogosCore (bridge s)).
  - destruct Hc as [Ht _]. exists pluginPath. by destruct r.
  - by inversion Hc.
Qed.

(** A method that opens with the check throws at once on an instance that is
    not initialized. *)
Lemma processPlugin_guard (pluginName : string) (s : State) :
  isInitialized (bridge s) = false ->
  processPlugin pluginName s = (s, Throw must_be_initialized).
Proof.
  intros H. unfold processPlugin, bind, get_bridge. by rewrite H.
Qed.

Lemma loadPlugin_guard (pluginName : string) (s : State) :
  isInitialized (bridge s) = false ->
  loadPlugin pluginName s = (s, Throw must_be_initialized).
Proof.
  intros H. unfold loadPlugin, bind, get_bridge. by rewrite H.
Qed.

(** C6. [processAndLoadPlugin] throws an error that names the plugin when the
    process step returns false, having made the process call and nothing
    after it, throws an error that names the plugin when the load step
    returns false, and returns true when both steps return true. *)
Theorem processAndLoadPlugin_outcomes (pluginName : string) (s : State) :
  (forall s1 : State,
      processPlugin pluginName s = (s1, Ret false) ->
      processAndLoadPlugin pluginName s
      = (s1, Throw ("Failed to process plugin: " ++ pluginName))
      /\ exists pluginPath,
          trace s1
          = (trace s
             ++ [ENative (NStr (logos_core_process_plugin pluginPath))])%list)
  /\ (forall s1 s2 : State,
         processPlugin pluginName s = (s1, Ret true) ->
         loadPlugin pluginName s1 = (s2, Ret false) ->
         processAndLoadPlugin pluginName s
         = (s2, Throw ("Failed to load plugin: " ++ pluginName)))
  /\ (forall s1 s2 : State,
         processPlugin pluginName s = (s1, Ret true) ->
         loadPlugin pluginName s1 = (s2, Ret true) ->
         processAndLoadPlugin pluginName s = (s2, Ret true)).
Proof.
  split; [|split].
  - intros s1 Hp. split.
    + unfold processAndLoadPlugin. by rewrite (bind_ret _ _ _ _ _ Hp).
    + destruct (isInitialized (bridge s)) eqn:Hinit.
      * destruct (processPlugin_effect pluginName s Hinit) as [_ Ht].
        rewrite Hp in Ht. simpl in Ht.
        destruct (LogosCore (bridge s)); [done|discriminate].
      * rewrite (processPlugin_guard _ _ Hinit) in Hp. discriminate.
  - intros s1 s2 Hp Hl. unfold processAndLoadPlugin.
    rewrite (bind_ret _ _ _ _ _ Hp). simpl.
    by rewrite (bind_ret _ _ _ _ _ Hl).
  - intros s1 s2 Hp Hl. unfold processAndLoadPlugin.
    rewrite (bind_ret _ _ _ _ _ Hp). simpl.
    by rewrite (bind_ret _ _ _ _ _ Hl).
Qed.

(** ** Native string arrays *)

Lemma convert_loop_suffix (w : World) (cStringArray : Z) (ptrs : list Z) :
  forall (seen : list Z) (fuel : nat) (result : list string),
    null_terminated w cStringArray (seen ++ ptrs)%list ->
    (length ptrs < fuel)%nat ->
    convert_loop fuel w cStringArray (Z.of_nat (length seen)) result
    = Some (result ++ map (readCString w) ptrs)%list.
Proof.
  induction ptrs as [|p ptrs IH]; intros seen fuel result [Hentries Hend] Hfuel.
  - destruct fuel as [|fuel]; [simpl in Hfuel; lia|]. simpl.
    rewrite app_nil_r in Hend. rewrite Hend. simpl.
    by rewrite app_nil_r.
  - destruct fuel as [|fuel]; [simpl in Hfuel; lia|]. simpl.
    destruct (Hentries (length seen) p) as [Hp Hread].
    { by rewrite lookup_app_r, Nat.sub_diag. }
    rewrite Hread. destruct (Z.eqb_spec p 0) as [->|_]; [done|].
    replace (Z.of_nat (length seen) + 1)
      with (Z.of_nat (length (seen ++ [p])%list))
      by (rewrite length_app; simpl; lia).
    rewrite IH.
    + by rewrite <- app_assoc.
    + rewrite <- app_assoc. by split.
    + simpl in Hfuel. lia.
Qed.

(** C9. [_convertCStringArrayToJS] returns the empty list for a null pointer;
    for a non-null pointer to entries [ptrs] followed by a null entry it
    returns, whenever the loop is given more steps than there are entries,
    exactly the strings read at [ptrs], in order. *)
Theorem convertCStringArrayToJS_reads_until_null
  (w : World) (cStringArray : Z) (ptrs : list Z) (fuel : nat) :
  _convertCStringArrayToJS fuel w 0 = Some []
  /\ (cStringArray <> 0 ->
      null_terminated w cStringArray ptrs ->
      (length ptrs < fuel)%nat ->
      _convertCStringArrayToJS fuel w cStringArray
      = Some (map (readCString w) ptrs)).
Proof.
  split; [reflexivity|].
  intros Hnz Hnt Hfuel. unfold _convertCStringArrayToJS.
  destruct (Z.eqb_spec cStringArray 0) as [?|_]; [done|].
  apply (convert_loop_suffix w cStringArray ptrs [] fuel []); auto.
Qed.

(** ** Argument encoding *)

(** The parameters made from an argument list follow the arguments one by
    one, numbered from [start]. *)
Lemma map_toParam_lookup (args : list JSValue) :
  forall (start : nat) (ps : list Param),
    map_toParam start args = Ret ps ->
    length ps = length args
    /\ (forall (i : nat) (arg : JSValue),
        args !! i = Some arg ->
        exists inferred : Inferred,
          _inferTypeAndValue arg = Ret inferred
          /\ ps !! i
             = Some (mkParam ("arg" ++ pretty (start + i)%nat)
                             (value inferred) (type inferred))).
Proof.
  induction args as [|a args IH]; intros start ps H; simpl in H.
  - inversion H. split; [done|]. intros i arg Hi. by destruct i.
  - unfold toParam in H.
    destruct (_inferTypeAndValue a) as [inferred| |] eqn:Ha; try done.
    destruct (map_toParam (S start) args) as [ps'| |] eqn:Hrest; try done.
    inversion H; subst ps. destruct (IH _ _ Hrest) as [Hlen Hps].
    split; [simpl; by rewrite Hlen|].
    intros [|i] arg Hi; simpl in Hi.
    + inversion Hi; subst arg. exists inferred.
      by rewrite Nat.add_0_r.
    + destruct (Hps i arg Hi) as (inf & Hinf & Hp). exists inf.
      split; [done|]. simpl. by rewrite Nat.add_succ_r.
Qed.

(** C4. An argument for which [JSON.stringify] returns [undefined] without
    throwing, as it does for a function, is given the type [string] and an
    undefined value: the value is no text at all, neither a JSON text nor
    [String(value)], and the parameter made from the argument carries that
    undefined value under the type [string]. *)
Theorem undefined_json_has_no_value (o : Obj) :
  JSON_stringify o = Returns None ->
  _inferTypeAndValue (JOther o) = Ret (mkInferred "string" SUndefined)
  /\ (forall text : string,
      _inferTypeAndValue (JOther o) <> Ret (mkInferred "string" (SStr text)))
  /\ (forall index : nat,
      toParam (JOther o) index
      = Ret (mkParam ("arg" ++ pretty index) SUndefined "string")).
Proof.
  intros Ho.
  assert (H : _inferTypeAndValue (JOther o)
              = Ret (mkInferred "string" SUndefined))
    by (simpl; by rewrite Ho).
  split; [done|]. split.
  - intros text. rewrite H. discriminate.
  - intros index. unfold toParam. by rewrite H.
Qed.

(** X17. The inferred encoding of an argument: booleans as [bool] with the
    text [true] or [false], integral numbers as [int] and other numbers as
    [double] with [String(n)], strings as themselves, null and undefined as
    the empty string, and any other value as [string] with what
    [JSON.stringify] returns for it (its JSON text, or undefined where there
    is none), or with [String(value)] when [JSON.stringify] throws; in the
    parameter list the argument at [index] is named [arg<index>] and carries
    the inferred value and type. *)
Theorem inferTypeAndValue_encoding :
  (forall b : bool,
      _inferTypeAndValue (JBool b)
      = Ret (mkInferred "bool" (SStr (if b then "true" else "false"))))
  /\ (forall n : Num,
         Number_isInteger n = true ->
         _inferTypeAndValue (JNumber n)
         = Ret (mkInferred "int" (SStr (String_of_number n))))
  /\ (forall n : Num,
         Number_isInteger n = false ->
         _inferTypeAndValue (JNumber n)
         = Ret (mkInferred "double" (SStr (String_of_number n))))
  /\ (forall s : string,
         _inferTypeAndValue (JString s) = Ret (mkInferred "string" (SStr s)))
  /\ _inferTypeAndValue JNull = Ret (mkInferred "string" (SStr ""))
  /\ _inferTypeAndValue JUndefined = Ret (mkInferred "string" (SStr ""))
  /\ (forall (o : Obj) (r : option string),
         JSON_stringify o = Returns r ->
         _inferTypeAndValue (JOther o)
         = Ret (mkInferred "string"
                  (match r with Some text => SStr text | None => SUndefined end)))
  /\ (forall (o : Obj) (e text : string),
         JSON_stringify o = Throws e ->
         String_of_obj o = Returns text ->
         _inferTypeAndValue (JOther o) = Ret (mkInferred "string" (SStr text)))
  /\ (forall (args : list JSValue) (ps : list Param) (index : nat)
            (arg : JSValue),
         map_toParam 0 args = Ret ps ->
         args !! index = Some arg ->
         exists inferred : Inferred,
           _inferTypeAndValue arg = Ret inferred
           /\ ps !! index
              = Some (mkParam ("arg" ++ pretty index) (value inferred)
                              (type inferred))).
Proof.
  repeat split.
  - intros n Hn. simpl. by rewrite Hn.
  - intros n Hn. simpl. by rewrite Hn.
  - intros o r Ho. simpl. rewrite Ho. by destruct r.
  - intros o e text Ho Hs. simpl. by rewrite Ho, Hs.
  - intros args ps index arg Hps Harg.
    destruct (map_toParam_lookup args 0 ps Hps) as [_ H].
    exact (H index arg Harg).
Qed.

(** ** The plugin proxy *)

(** C10. Reading [then] on a plugin proxy gives [undefined], not a function,
    so awaiting the proxy calls nothing: the state, and with it the trace of
    native calls, is unchanged. *)
Theorem then_is_undefined (pluginName : string) (args : list JSValue)
  (s : State) :
  plugin_proxy_get pluginName (PString "then") = GUndefined
  /\ is_function (plugin_proxy_get pluginName (PString "then")) = false
  /\ await_proxy pluginName args s = (s, Ret tt).
Proof. repeat split. Qed.

(** ** Lifecycle checks *)

Lemma native_calls_app (t1 t2 : list Event) :
  native_calls (t1 ++ t2)%list = (native_calls t1 ++ native_calls t2)%list.
Proof. unfold native_calls. apply filter_app. Qed.

Lemma run_guarded_throws (c : GuardedCall) (s : State) :
  isInitialized (bridge s) = false ->
  exists message,
    run_guarded c s = (s, Throw message) /\ not_initialized_message message.
Proof.
  intros H.
  destruct c; unfold run_guarded, discard;
    [ exists "LogosAPI must be initialized before starting"
    | exists must_be_initialized .. ];
    (split; [|unfold not_initialized_message; auto]);
    unfold start, getPluginStatus, getLoadedPlugins, getKnownPlugins,
      processAndLoadPlugin, processPlugin, loadPlugin, unloadPlugin,
      callPluginMethodAsync, registerEventListener, exec, bind, get_bridge;
    by rewrite H.
Qed.

Lemma startEventProcessing_idle (interval : option Num) (s : State) :
  eventProcessingInterval (bridge s) = None ->
  snd (startEventProcessing interval s) = Ret true
  /\ native_calls (trace (fst (startEventProcessing interval s)))
     = native_calls (trace s).
Proof.
  intros H.
  unfold startEventProcessing, bind, get_bridge, setInterval, modify, ret.
  rewrite H. simpl. split; [done|].
  rewrite native_calls_app. simpl. apply app_nil_r.
Qed.

(** With no pump running, [startEventProcessing] asks the host for one
    interval and keeps its timer; nothing else changes. *)
Lemma startEventProcessing_schedules (interval : option Num) (s : State) :
  eventProcessingInterval (bridge s) = None ->
  startEventProcessing interval s
  = (mkState
       (with_eventProcessingInterval (Some (next_timer s)) (bridge s))
       (world s)
       (trace s
        ++ [ESetInterval (next_timer s)
              (default (Number_literal 100) interval)])
       ({[next_timer s]} ∪ timers s) (S (next_timer s)) (next_promise s),
     Ret true).
Proof.
  intros H.
  unfold startEventProcessing, bind, get_bridge, setInterval, modify, ret.
  by rewrite H.
Qed.

(** C2. While [isInitialized] is false, each method that opens with the check
    ([start], [getLoadedPlugins], [getKnownPlugins], [getPluginStatus],
    [processPlugin], [loadPlugin], [unloadPlugin], [processAndLoadPlugin],
    [callPluginMethodAsync], [registerEventListener], [exec]) throws a
    must-be-initialized error and leaves the whole state, trace included, as
    it was; [init] on an initialized instance throws the already-initialized
    error and leaves the state as it was; [startEventProcessing] has no such
    check: with no pump running it returns true, whatever [isInitialized]
    says, and all it does is schedule one interval with the host, of the
    period given or of 100 by default, and keep the timer in
    [eventProcessingInterval]; it calls no native entry point itself. *)
Theorem lifecycle_checks (s : State) :
  (isInitialized (bridge s) = false ->
   forall c : GuardedCall,
   exists message,
     run_guarded c s = (s, Throw message) /\ not_initialized_message message)
  /\ (isInitialized (bridge s) = true ->
      init s = (s, Throw "LogosAPI is already initialized"))
  /\ (eventProcessingInterval (bridge s) = None ->
      forall interval : option Num,
        startEventProcessing interval s
        = (mkState
             (with_eventProcessingInterval (Some (next_timer s)) (bridge s))
             (world s)
             (trace s
              ++ [ESetInterval (next_timer s)
                    (default (Number_literal 100) interval)])
             ({[next_timer s]} ∪ timers s) (S (next_timer s))
             (next_promise s),
           Ret true)
        /\ native_calls (trace (fst (startEventProcessing interval s)))
           = native_calls (trace s)).
Proof.
  split; [|split].
  - intros H c. by apply run_guarded_throws.
  - intros H. unfold init, bind, get_bridge. by rewrite H.
  - intros H interval. split.
    + by apply startEventProcessing_schedules.
    + by apply startEventProcessing_idle.
Qed.

(** ** Teardown *)

Lemma cleanup_fields (s s' : State) :
  cleanup s = (s', Ret tt) ->
  isInitialized (bridge s') = false
  /\ isStarted (bridge s') = false
  /\ eventProcessingInterval (bridge s') = None
  /\ callbacks (bridge s') = ∅
  /\ eventListeners (bridge s') = ∅
  /\ LogosCore (bridge s') = LogosCore (bridge s).
Proof.
  unfold cleanup, stopEventProcessing, clearInterval, core_void, bind,
    get_bridge, modify, emit, in_world_r, ret.
  simpl. intros H.
  repeat (case_match; simplify_eq/=); done.
Qed.

(** What a [cleanup] that returns leaves outside the fields: the timer of
    the pump is cleared with the host, the native cleanup is called when the
    instance holds its library handle, and nothing else is written. *)
Lemma cleanup_effect (s s' : State) :
  cleanup s = (s', Ret tt) ->
  timers s'
  = match eventProcessingInterval (bridge s) with
    | Some t => timers s ∖ {[t]}
    | None => timers s
    end
  /\ trace s'
     = (trace s
        ++ match eventProcessingInterval (bridge s) with
           | Some t => [EClearInterval t]
           | None => []
           end
        ++ match LogosCore (bridge s) with
           | Some _ => [ENative (NVoid logos_core_cleanup)]
           | None => []
           end)%list
  /\ next_timer s' = next_timer s
  /\ next_promise s' = next_promise s.
Proof.
  unfold cleanup, stopEventProcessing, clearInterval, core_void, bind,
    get_bridge, modify, emit, in_world_r, ret.
  simpl. intros H.
  repeat (case_match; simplify_eq/=); split_and!; try done;
    by rewrite <- ?app_assoc, ?app_nil_r.
Qed.

(** C3. Once [cleanup] has returned, [isInitialized] is false, both tables
    are empty and the pump is stopped: [eventProcessingInterval] is null, the
    timer it held is cleared with the host and is no longer among the timers
    the host runs, so that a late tick of it does nothing; the trace has
    grown by that [clearInterval] and by the native cleanup call, made when
    the instance holds its library handle. Every method that opens with the
    check then throws a must-be-initialized error and leaves the state, trace
    included, as it was; [startEventProcessing], which has no such check,
    returns true and schedules a new interval. *)
Theorem after_cleanup (s s' : State) :
  cleanup s = (s', Ret tt) ->
  isInitialized (bridge s') = false
  /\ eventProcessingInterval (bridge s') = None
  /\ timers s'
     = match eventProcessingInterval (bridge s) with
       | Some t => timers s ∖ {[t]}
       | None => timers s
       end
  /\ trace s'
     = (trace s
        ++ match eventProcessingInterval (bridge s) with
           | Some t => [EClearInterval t]
           | None => []
           end
        ++ match LogosCore (bridge s) with
           | Some _ => [ENative (NVoid logos_core_cleanup)]
           | None => []
           end)%list
  /\ (forall t : TimerId,
      eventProcessingInterval (bridge s) = Some t ->
      (t ∉ timers s') /\ fire_timer t s' = (s', Ret tt))
  /\ callbacks (bridge s') = ∅
  /\ eventListeners (bridge s') = ∅
  /\ (forall c : GuardedCall,
      exists message,
        run_guarded c s' = (s', Throw message)
        /\ not_initialized_message message)
  /\ (forall interval : option Num,
      startEventProcessing interval s'
      = (mkState
           (with_eventProcessingInterval (Some (next_timer s')) (bridge s'))
           (world s')
           (trace s'
            ++ [ESetInterval (next_timer s')
                  (default (Number_literal 100) interval)])
           ({[next_timer s']} ∪ timers s') (S (next_timer s'))
           (next_promise s'),
         Ret true)).
Proof.
  intros H.
  destruct (cleanup_fields s s' H) as (Hinit & _ & Hpump & Hcb & Hev & _).
  destruct (cleanup_effect s s' H) as (Htimers & Htrace & _).
  split_and!; try done.
  - intros t Ht. rewrite Ht in Htimers.
    assert (Hnot : t ∉ timers s') by (rewrite Htimers; set_solver).
    split; [done|]. unfold fire_timer. by rewrite decide_False.
  - intros c. by apply run_guarded_throws.
  - intros interval. by apply startEventProcessing_schedules.
Qed.

(** ** Dispatch *)

Lemma invoke_handler_effect (h : Handler) (success : bool) (message : Value)
  (meta : Meta) (s : State) :
  bridge (fst (invoke_handler h success message meta s)) = bridge s
  /\ trace (fst (invoke_handler h success message meta s))
     = (trace s ++ [handler_event h success message meta])%list
  /\ snd (invoke_handler h success message meta s) <> Diverge.
Proof.
  destruct h as [f|listener|p]; simpl;
    unfold call_user, bind, emit, in_world_r; simpl.
  - by destruct (user_call (world s) f _) as [w [[]|e]].
  - destruct success; simpl;
      by destruct (user_call (world s) listener _) as [w [[]|e]].
  - done.
Qed.

(** A delivery returns normally, leaves the fields of the instance alone and
    adds to the trace the call of the handler, followed by the line of
    [console.error] when the handler threw. *)
Lemma ffi_callback_effect (cb : FFICallback) (result : Z) (message : string)
  (s : State) :
  exists (s' : State) (ts : string) (tail : list Event),
    ffi_callback cb result message s = (s', Ret tt)
    /\ bridge s' = bridge s
    /\ trace s'
       = (trace s
          ++ handler_event (userCallback cb) (result =? 1)
               (parseMessage message) (mkMeta (callbackId cb) ts message)
             :: tail)%list
    /\ (tail = []
        \/ exists e,
            tail = [EConsoleError ("Error in callback " ++ callbackId cb ++ ":")
                                  e]).
Proof.
  unfold ffi_callback, try_catch, bind, in_world.
  destruct (Date_toISOString (world s)) as [w1 ts]. simpl.
  destruct (invoke_handler_effect (userCallback cb) (result =? 1)
              (parseMessage message) (mkMeta (callbackId cb) ts message)
              (set_world w1 s)) as (Hb & Ht & Hd).
  destruct (invoke_handler _ _ _ _ _) as [s1 [[]|e|]]; simpl in *;
    [| |done].
  - exists s1, ts, []. eauto.
  - exists (log (EConsoleError ("Error in callback " ++ callbackId cb ++ ":")
                              e) s1), ts,
      [EConsoleError ("Error in callback " ++ callbackId cb ++ ":") e].
    unfold emit. simpl. split; [done|]. split; [done|]. split; [|eauto].
    rewrite Ht. by rewrite <- app_assoc.
Qed.

Lemma fired_handler_event (h : Handler) (success : bool) (message : Value)
  (meta : Meta) :
  fired (handler_event h success message meta : Event) = Some h.
Proof. by destruct h. Qed.

Lemma fired_handlers_delivery (t tail : list Event) (h : Handler)
  (success : bool) (message : Value) (meta : Meta) :
  (tail = [] \/ exists text e, tail = [EConsoleError text e]) ->
  fired_handlers (t ++ handler_event h success message meta :: tail)%list
  = (fired_handlers t ++ [h])%list.
Proof.
  intros Htail. unfold fired_handlers. rewrite omap_app. f_equal. simpl.
  rewrite fired_handler_event.
  by destruct Htail as [->|(text & e & ->)].
Qed.


(** C8. The dispatcher always returns normally and leaves the fields of the
    instance alone; when the handler throws, the error is written with
    [console.error] and the dispatcher still returns; a sequence of
    deliveries runs the handler of each delivery, in order, whatever the
    earlier handlers did. *)
Theorem dispatcher_contains_exceptions :
  (forall (cb : FFICallback) (result : Z) (message : string) (s : State),
      exists s' : State,
        ffi_callback cb result message s = (s', Ret tt)
        /\ bridge s' = bridge s)
  /\ (forall (cb : FFICallback) (result : Z) (message : string)
        (s s1 : State) (w1 : World) (ts e : string),
         Date_toISOString (world s) = (w1, ts) ->
         invoke_handler (userCallback cb) (result =? 1) (parseMessage message)
                        (mkMeta (callbackId cb) ts message) (set_world w1 s)
         = (s1, Throw e) ->
         ffi_callback cb result message s
         = (log (EConsoleError ("Error in callback " ++ callbackId cb ++ ":")
                               e) s1,
            Ret tt))
  /\ (forall (ds : list Delivery) (s : State),
         exists s' : State,
           deliver_all ds s = (s', Ret tt)
           /\ fired_handlers (trace s')
              = (fired_handlers (trace s)
                 ++ map (fun d => userCallback (d_callback d)) ds)%list).
Proof.
  split; [|split].
  - intros cb result message s.
    destruct (ffi_callback_effect cb result message s)
      as (s' & ts & tail & Hrun & Hb & _).
    eauto.
  - intros cb result message s s1 w1 ts e Hts Hthrow.
    unfold ffi_callback, try_catch, bind, in_world.
    rewrite Hts. simpl. by rewrite Hthrow.
  - induction ds as [|d ds IH]; intros s.
    + exists s. split; [done|]. simpl. by rewrite app_nil_r.
    + destruct (ffi_callback_effect (d_callback d) (d_result d)
                  (d_message d) s)
        as (s1 & ts & tail & Hrun & _ & Ht & Htail).
      destruct (IH s1) as (s' & Hrest & Hfired).
      exists s'. split.
      * simpl. unfold deliver at 1. by rewrite (bind_ret _ _ _ _ _ Hrun).
      * rewrite Hfired, Ht. simpl.
        rewrite fired_handlers_delivery
          by (destruct Htail as [->|[e ->]]; eauto).
        by rewrite <- app_assoc.
Qed.

(** ** Event subscription through the proxy *)


(** ** Batch loading *)

Lemma bind_assoc {A B C} (m : M A) (f : A -> M B) (g : B -> M C) (s : State) :
  bind (bind m f) g s = bind m (fun a => bind (f a) g) s.
Proof. unfold bind. by destruct (m s) as [s1 [a|e|]]. Qed.

Lemma bind_ext {A B} (m : M A) (f g : A -> M B) (s : State) :
  (forall a s', f a s' = g a s') -> bind m f s = bind m g s.
Proof. intros H. unfold bind. by destruct (m s) as [s1 [a|e|]]. Qed.

(** ** The results object *)

Lemma results_get_set_eq (n : string) (r : PluginResult) (o : Results) :
  results_get n (results_set n r o) = Some r.
Proof.
  unfold results_get, results_set.
  destruct (String.eqb n "__proto__"); simpl; [done|].
  by rewrite lookup_insert_eq.
Qed.

Lemma results_get_set_ne (n m : string) (r : PluginResult) (o : Results) :
  n <> m -> results_get n (results_set m r o) = results_get n o.
Proof.
  intros Hne. unfold results_get, results_set.
  destruct (String.eqb_spec n "__proto__"), (String.eqb_spec m "__proto__");
    simpl; subst; try done.
  by rewrite lookup_insert_ne.
Qed.

Lemma results_keys_set (m : string) (r : PluginResult) (o : Results) :
  results_keys (results_set m r o)
  = if String.eqb m "__proto__" then results_keys o
    else {[m]} ∪ results_keys o.
Proof.
  unfold results_keys, results_set.
  destruct (String.eqb m "__proto__"); simpl; [done|].
  by rewrite dom_insert_L.
Qed.

Lemma results_keys_get (n : string) (r : PluginResult) (o : Results) :
  n <> "__proto__" -> results_get n o = Some r -> n ∈ results_keys o.
Proof.
  intros Hne. unfold results_get, results_keys.
  destruct (String.eqb_spec n "__proto__"); [done|].
  intros H. apply elem_of_dom. eauto.
Qed.

Lemma processed_in_get (o : Results) (n : string) (r : PluginResult) :
  results_get n o = Some r -> processed_in o n = processed r.
Proof. unfold processed_in. by intros ->. Qed.

(** ** One attempt *)

Lemma reaches_native_true (b : Bridge) :
  reaches_native b = true
  <-> isInitialized b = true /\ is_Some (LogosCore b).
Proof.
  unfold reaches_native. rewrite andb_true_iff, bool_decide_eq_true. done.
Qed.

Lemma reaches_native_false (b : Bridge) :
  reaches_native b = false
  <-> isInitialized b = false \/ LogosCore b = None.
Proof.
  unfold reaches_native. rewrite andb_false_iff, bool_decide_eq_false.
  split; (intros [H|H]; [by left|right]).
  - destruct (LogosCore b); [|done]. destruct H. eauto.
  - rewrite H. by intros [? ?].
Qed.

Lemma processPlugin_path (pluginName : string) (s : State) :
  isInitialized (bridge s) = true ->
  exists dir,
    processPlugin pluginName s
    = bind (core_str
              (logos_core_process_plugin
                 (path_join
                    [dir; pluginName ++ "_plugin" ++ _getLibraryExtension])))
           (fun result => ret (truthy result)) s.
Proof.
  intros Hinit. destruct (resolvePluginsDir_reads s) as [dir Hdir].
  exists dir. unfold processPlugin.
  unfold bind at 1. unfold get_bridge at 1. rewrite Hinit. simpl.
  by rewrite (bind_ret _ _ _ _ _ Hdir).
Qed.

(** One process attempt: it ends and leaves the fields of the instance
    alone; it makes the process call for the file of the plugin when the
    instance reaches the library, no call otherwise, and it returns a value
    in the first case only. *)
Lemma processPlugin_attempt (pluginName : string) (s : State) :
  exists t : list Event,
    snd (processPlugin pluginName s) <> Diverge
    /\ bridge (fst (processPlugin pluginName s)) = bridge s
    /\ trace (fst (processPlugin pluginName s)) = (trace s ++ t)%list
    /\ (if reaches_native (bridge s)
        then exists e, t = [e] /\ process_call_of pluginName e
        else t = [])
    /\ (forall b, snd (processPlugin pluginName s) = Ret b ->
        reaches_native (bridge s) = true).
Proof.
  destruct (isInitialized (bridge s)) eqn:Hinit.
  - destruct (processPlugin_path pluginName s Hinit) as [dir ->].
    set (c := logos_core_process_plugin _).
    destruct (core_str_effect c s) as [Hb Hc].
    unfold bind.
    destruct (core_str c s) as [s1 r] eqn:Hcall. simpl in Hb, Hc.
    destruct (LogosCore (bridge s)) as [lib|] eqn:Hlib.
    + assert (Hreach : reaches_native (bridge s) = true).
      { apply reaches_native_true. rewrite Hlib. eauto. }
      rewrite Hreach.
      destruct Hc as [Ht Hr]. exists [ENative (NStr c)].
      destruct (native_str _ _) as [w [o|e]]; simpl in Hr; subst r; simpl;
        split_and!; try done; try (eexists; split; [done|by exists dir]).
    + assert (Hreach : reaches_native (bridge s) = false).
      { apply reaches_native_false. right. done. }
      rewrite Hreach.
      inversion Hc; subst. exists []. simpl. rewrite app_nil_r.
      split_and!; done.
  - assert (Hreach : reaches_native (bridge s) = false).
    { apply reaches_native_false. by left. }
    rewrite Hreach.
    rewrite (processPlugin_guard _ _ Hinit). exists []. simpl.
    rewrite app_nil_r. split_and!; done.
Qed.

(** One load attempt: it ends and leaves the fields of the instance alone;
    it makes the load call when the instance reaches the library and no call
    otherwise. *)
Lemma loadPlugin_attempt (pluginName : string) (s : State) :
  snd (loadPlugin pluginName s) <> Diverge
  /\ bridge (fst (loadPlugin pluginName s)) = bridge s
  /\ trace (fst (loadPlugin pluginName s))
     = (trace s
        ++ if reaches_native (bridge s) then [load_call pluginName]
           else [])%list.
Proof.
  unfold load_call.
  destruct (isInitialized (bridge s)) eqn:Hinit.
  - rewrite (loadPlugin_unfold pluginName s Hinit).
    destruct (core_int_effect (logos_core_load_plugin pluginName) s)
      as [Hb Hc].
    unfold bind.
    destruct (core_int _ s) as [s1 r] eqn:Hcall. simpl in Hb, Hc.
    destruct (LogosCore (bridge s)) as [lib|] eqn:Hlib.
    + assert (Hreach : reaches_native (bridge s) = true).
      { apply reaches_native_true. rewrite Hlib. eauto. }
      rewrite Hreach.
      destruct Hc as [Ht Hr].
      destruct (native_int _ _) as [w [o|e]]; simpl in Hr; subst r; simpl;
        split_and!; done.
    + assert (Hreach : reaches_native (bridge s) = false).
      { apply reaches_native_false. right. done. }
      rewrite Hreach.
      inversion Hc; subst. simpl. rewrite app_nil_r.
      split_and!; done.
  - assert (Hreach : reaches_native (bridge s) = false).
    { apply reaches_native_false. by left. }
    rewrite Hreach.
    rewrite (loadPlugin_guard _ _ Hinit). simpl.
    rewrite app_nil_r. split_and!; done.
Qed.

(** The record the body of the first loop stores. *)
Lemma process_entry_record (pluginName : string) (s : State) :
  exists (r : PluginResult) (t : list Event),
    process_entry pluginName s = (fst (processPlugin pluginName s), Ret r)
    /\ bridge (fst (processPlugin pluginName s)) = bridge s
    /\ trace (fst (processPlugin pluginName s)) = (trace s ++ t)%list
    /\ (if reaches_native (bridge s)
        then exists e, t = [e] /\ process_call_of pluginName e
        else t = [])
    /\ loaded r = None
    /\ (processed r = true -> reaches_native (bridge s) = true)
    /\ (forall b, snd (processPlugin pluginName s) = Ret b ->
        r = mkPluginResult b None None)
    /\ (forall e, snd (processPlugin pluginName s) = Throw e ->
        r = mkPluginResult false None (Some e)).
Proof.
  destruct (processPlugin_attempt pluginName s) as (t & Hd & Hb & Ht & Hc & Hr).
  unfold process_entry, try_catch, bind, ret.
  destruct (processPlugin pluginName s) as [s1 [b|e|]]; simpl in *;
    [| |done].
  - exists (mkPluginResult b None None), t.
    split_and!; try done; [intros _; by eapply Hr|congruence].
  - exists (mkPluginResult false None (Some e)), t.
    split_and!; try done. congruence.
Qed.

(** The record the body of the second loop stores. *)
Lemma load_entry_record (pluginName : string) (r : PluginResult) (s : State) :
  exists r' : PluginResult,
    load_entry pluginName r s = (fst (loadPlugin pluginName s), Ret r')
    /\ bridge (fst (loadPlugin pluginName s)) = bridge s
    /\ trace (fst (loadPlugin pluginName s))
       = (trace s
          ++ if reaches_native (bridge s) then [load_call pluginName]
             else [])%list
    /\ processed r' = processed r
    /\ is_Some (loaded r')
    /\ (forall b, snd (loadPlugin pluginName s) = Ret b ->
        r' = mkPluginResult (processed r) (Some b) (error r))
    /\ (forall e, snd (loadPlugin pluginName s) = Throw e ->
        r' = mkPluginResult (processed r) (Some false) (Some e)).
Proof.
  destruct (loadPlugin_attempt pluginName s) as (Hd & Hb & Ht).
  unfold load_entry, try_catch, bind, ret.
  destruct (loadPlugin pluginName s) as [s1 [b|e|]]; simpl in *;
    [| |done].
  - exists (mkPluginResult (processed r) (Some b) (error r)).
    split_and!; try done; simpl; try eauto; congruence.
  - exists (mkPluginResult (processed r) (Some false) (Some e)).
    split_and!; try done; simpl; try eauto; congruence.
Qed.

(** ** The two loops *)

Lemma process_all_app (pre rest : list string) :
  forall (acc : Results) (s : State),
    process_all (pre ++ rest)%list acc s
    = bind (process_all pre acc) (process_all rest) s.
Proof.
  induction pre as [|x pre IH]; intros acc s; simpl.
  - reflexivity.
  - rewrite bind_assoc. apply bind_ext. intros r s'. apply IH.
Qed.

Lemma load_all_app (pre rest : list string) :
  forall (acc : Results) (s : State),
    load_all (pre ++ rest)%list acc s
    = bind (load_all pre acc) (load_all rest) s.
Proof.
  induction pre as [|x pre IH]; intros acc s; simpl.
  - reflexivity.
  - destruct (results_get x acc) as [r|]; [|done].
    destruct (processed r); [|apply IH].
    rewrite bind_assoc. apply bind_ext. intros r' s'. apply IH.
Qed.

(** The first loop ends. When the instance reaches the library it makes one
    process call per name, in the order of the list, and none otherwise. It
    leaves a record, not yet loaded, for each name: an own property, except
    for [__proto__]. *)
Lemma process_all_spec (pluginNames : list string) :
  forall (acc : Results) (s : State),
  exists (s1 : State) (res : Results) (t : list Event),
    process_all pluginNames acc s = (s1, Ret res)
    /\ bridge s1 = bridge s
    /\ trace s1 = (trace s ++ t)%list
    /\ (if reaches_native (bridge s)
        then Forall2 process_call_of pluginNames t
        else t = [])
    /\ (forall n, n ∈ pluginNames ->
        exists r,
          results_get n res = Some r
          /\ loaded r = None
          /\ (processed r = true -> reaches_native (bridge s) = true))
    /\ (forall n, n ∉ pluginNames -> results_get n res = results_get n acc)
    /\ results_keys res
       = results_keys acc ∪ (list_to_set pluginNames ∖ {["__proto__"]}).
Proof.
  induction pluginNames as [|x rest IH]; intros acc s.
  - exists s, acc, []. simpl. rewrite app_nil_r.
    split_and!; try done.
    + by destruct (reaches_native (bridge s)).
    + intros n Hn. by apply elem_of_nil in Hn.
    + set_solver.
  - destruct (process_entry_record x s)
      as (r & t0 & Hrun & Hb0 & Ht0 & Hc0 & Hl & Hp & _).
    destruct (IH (results_set x r acc) (fst (processPlugin x s)))
      as (s1 & res & t1 & Hrest & Hb1 & Ht1 & Hc1 & Hin & Hout & Hkeys).
    exists s1, res, (t0 ++ t1)%list. split_and!.
    + simpl. by rewrite (bind_ret _ _ _ _ _ Hrun).
    + congruence.
    + rewrite Ht1, Ht0. by rewrite app_assoc.
    + rewrite Hb0 in Hc1. destruct (reaches_native (bridge s)).
      * destruct Hc0 as (e & -> & He). simpl. by constructor.
      * by rewrite Hc0, Hc1.
    + intros n Hn. destruct (decide (n ∈ rest)) as [Hr|Hr].
      { destruct (Hin n Hr) as (r0 & H1 & H2 & H3). exists r0.
        split_and!; try done. by rewrite <- Hb0. }
      apply elem_of_cons in Hn as [->|Hn]; [|done].
      rewrite (Hout _ Hr), results_get_set_eq. eauto.
    + intros n Hn. apply not_elem_of_cons in Hn as [Hne Hn].
      by rewrite (Hout _ Hn), results_get_set_ne.
    + rewrite Hkeys, results_keys_set.
      destruct (String.eqb_spec x "__proto__"); set_solver.
Qed.

Lemma processed_in_set (acc : Results) (x : string) (r r' : PluginResult) :
  results_get x acc = Some r -> processed r' = processed r ->
  forall n, processed_in (results_set x r' acc) n = processed_in acc n.
Proof.
  intros Hx Hp n. unfold processed_in.
  destruct (decide (n = x)) as [->|Hne].
  - by rewrite results_get_set_eq, Hx.
  - by rewrite results_get_set_ne.
Qed.

(** The second loop ends when every name has a record. It never changes
    [processed]; when the instance reaches the library it makes one load call
    per name whose record says [processed], in the order of the list, and
    none otherwise; it leaves the records that are not [processed] alone,
    gives the others a [loaded] field and adds no property. *)
Lemma load_all_spec (pluginNames : list string) :
  forall (acc : Results) (s : State),
  (forall n, n ∈ pluginNames -> is_Some (results_get n acc)) ->
  exists (s2 : State) (res : Results),
    load_all pluginNames acc s = (s2, Ret res)
    /\ bridge s2 = bridge s
    /\ trace s2
       = (trace s
          ++ if reaches_native (bridge s)
             then map load_call (filter (processed_in acc) pluginNames)
             else [])%list
    /\ (forall n, n ∉ pluginNames -> results_get n res = results_get n acc)
    /\ (forall n, processed_in res n = processed_in acc n)
    /\ (forall n r, results_get n acc = Some r -> processed r = false ->
        results_get n res = Some r)
    /\ (forall n, is_Some (results_get n acc) -> is_Some (results_get n res))
    /\ (forall n r, n ∈ pluginNames -> results_get n res = Some r ->
        processed r = true -> is_Some (loaded r))
    /\ results_keys res = results_keys acc.
Proof.
  induction pluginNames as [|x rest IH]; intros acc s Hdom.
  - exists s, acc. simpl.
    split_and!; try done.
    + destruct (reaches_native (bridge s)); simpl; by rewrite app_nil_r.
    + intros n r Hn. by apply elem_of_nil in Hn.
  - destruct (Hdom x) as [r Hx]; [by left|]. simpl. rewrite Hx.
    destruct (processed r) eqn:Hp.
    + destruct (load_entry_record x r s)
        as (r' & Hrun & Hb0 & Ht0 & Hp' & Hl' & _).
      pose proof (processed_in_set acc x r r' Hx Hp') as Hsame.
      destruct (IH (results_set x r' acc) (fst (loadPlugin x s)))
        as (s2 & res & Hrest & Hb1 & Ht1 & Hout & Hproc & Hkeep & Hsome
            & Hload & Hkeys).
      { intros n Hn. destruct (decide (n = x)) as [->|Hne].
        - rewrite results_get_set_eq. eauto.
        - rewrite results_get_set_ne by done. apply Hdom. by right. }
      exists s2, res. split_and!.
      * by rewrite (bind_ret _ _ _ _ _ Hrun).
      * congruence.
      * rewrite Ht1, Ht0, Hb0, <- app_assoc. f_equal.
        rewrite filter_cons_True
          by (rewrite (processed_in_get _ _ _ Hx), Hp; done).
        rewrite (list_filter_iff _ (processed_in acc))
          by (intros n; by rewrite Hsame).
        by destruct (reaches_native (bridge s)).
      * intros n Hn. apply not_elem_of_cons in Hn as [Hne Hn].
        by rewrite (Hout _ Hn), results_get_set_ne.
      * intros n. by rewrite Hproc, Hsame.
      * intros n r0 Hn Hp0. apply Hkeep; [|done].
        rewrite results_get_set_ne; [done|]. intros ->. congruence.
      * intros n Hn. apply Hsome. destruct (decide (n = x)) as [->|Hne].
        -- rewrite results_get_set_eq. eauto.
        -- by rewrite results_get_set_ne.
      * intros n r0 Hn Hr0 Hp0.
        destruct (decide (n ∈ rest)) as [Hr|Hr]; [by eapply Hload|].
        apply elem_of_cons in Hn as [->|Hn]; [|done].
        rewrite (Hout _ Hr), results_get_set_eq in Hr0.
        by inversion Hr0; subst.
      * rewrite Hkeys, results_keys_set.
        destruct (String.eqb_spec x "__proto__") as [->|Hne]; [done|].
        pose proof (results_keys_get x r acc Hne Hx). set_solver.
    + destruct (IH acc s)
        as (s2 & res & Hrest & Hb1 & Ht1 & Hout & Hproc & Hkeep & Hsome
            & Hload & Hkeys).
      { intros n Hn. apply Hdom. by right. }
      exists s2, res. split_and!; try done.
      * rewrite Ht1. f_equal.
        rewrite filter_cons_False; [done|].
        rewrite (processed_in_get _ _ _ Hx), Hp. by intros [].
      * intros n Hn. apply not_elem_of_cons in Hn as [Hne Hn]. by apply Hout.
      * intros n r0 Hn Hr0 Hp0.
        destruct (decide (n ∈ rest)) as [Hr|Hr]; [by eapply Hload|].
        apply elem_of_cons in Hn as [->|Hn]; [|done].
        rewrite (Hkeep _ _ Hx Hp) in Hr0. inversion Hr0; subst. congruence.
Qed.

(** The record of the last occurrence of a name survives the first loop. *)
Lemma process_all_last (pre post : list string) (name : string) (s : State)
  (s1 : State) (results1 : Results) :
  name ∉ post ->
  process_all (pre ++ name :: post)%list new_results s = (s1, Ret results1) ->
  exists r,
    results_get name results1 = Some r
    /\ loaded r = None
    /\ (forall b,
        snd (processPlugin name (fst (process_all pre new_results s))) = Ret b ->
        r = mkPluginResult b None None)
    /\ (forall e,
        snd (processPlugin name (fst (process_all pre new_results s)))
        = Throw e ->
        r = mkPluginResult false None (Some e)).
Proof.
  intros Hpost. rewrite process_all_app.
  destruct (process_all_spec pre new_results s) as (sa & resa & ta & Hpre & _).
  rewrite (bind_ret _ _ _ _ _ Hpre), Hpre. simpl.
  destruct (process_entry_record name sa)
    as (r & t0 & Hrun & _ & _ & _ & Hl & _ & Hret & Hthrow).
  rewrite (bind_ret _ _ _ _ _ Hrun).
  destruct (process_all_spec post (results_set name r resa)
              (fst (processPlugin name sa)))
    as (s1' & res & t1 & Hrest & _ & _ & _ & _ & Hout & _).
  rewrite Hrest. intros Heq. inversion Heq; subst.
  exists r. rewrite (Hout _ Hpost), results_get_set_eq. eauto.
Qed.

(** The load of the last occurrence of a name decides its [loaded] field. *)
Lemma load_all_last (pre post : list string) (name : string)
  (acc : Results) (s s2 : State) (results : Results) (r1 : PluginResult) :
  name ∉ post ->
  (forall n, n ∈ (pre ++ name :: post)%list -> is_Some (results_get n acc)) ->
  results_get name acc = Some r1 ->
  processed r1 = true ->
  load_all (pre ++ name :: post)%list acc s = (s2, Ret results) ->
  exists r,
    results_get name results = Some r
    /\ processed r = true
    /\ snd (loadPlugin name (fst (load_all pre acc s))) <> Diverge
    /\ (forall b,
        snd (loadPlugin name (fst (load_all pre acc s))) = Ret b ->
        loaded r = Some b)
    /\ (forall e,
        snd (loadPlugin name (fst (load_all pre acc s))) = Throw e ->
        loaded r = Some false /\ error r = Some e).
Proof.
  intros Hpost Hdom Hname Hp1. rewrite load_all_app.
  destruct (load_all_spec pre acc s)
    as (sb & resb & Hpre & _ & _ & _ & Hproc & _ & Hsome & _).
  { intros n Hn. apply Hdom. apply elem_of_app. by left. }
  rewrite (bind_ret _ _ _ _ _ Hpre), Hpre. simpl.
  destruct (Hsome name) as [rb Hrb]; [eauto|].
  specialize (Hproc name) as Hprocn.
  rewrite (processed_in_get _ _ _ Hrb), (processed_in_get _ _ _ Hname) in Hprocn.
  rewrite Hrb, Hprocn, Hp1.
  destruct (load_entry_record name rb sb)
    as (r' & Hrun & _ & _ & Hp' & _ & Hret & Hthrow).
  rewrite (bind_ret _ _ _ _ _ Hrun).
  destruct (load_all_spec post (results_set name r' resb)
              (fst (loadPlugin name sb)))
    as (s2' & res & Hrest & _ & _ & Hout & _).
  { intros n Hn. destruct (decide (n = name)) as [->|Hne].
    - rewrite results_get_set_eq. eauto.
    - rewrite results_get_set_ne by done. apply Hsome, Hdom.
      apply elem_of_app. right. by right. }
  rewrite Hrest. intros Heq. inversion Heq; subst.
  exists r'. rewrite (Hout _ Hpost), results_get_set_eq.
  destruct (loadPlugin_attempt name sb) as (Hd & _).
  split_and!; try done.
  - congruence.
  - intros b Hb. by rewrite (Hret b Hb).
  - intros e He. by rewrite (Hthrow e He).
Qed.

(** What the two loops do together. *)
Lemma processAndLoadPlugins_run (pluginNames : list string) (s : State) :
  exists (s1 s2 : State) (results1 results : Results) (t1 : list Event),
    process_all pluginNames new_results s = (s1, Ret results1)
    /\ load_all pluginNames results1 s1 = (s2, Ret results)
    /\ processAndLoadPlugins pluginNames s = (s2, Ret results)
    /\ bridge s1 = bridge s
    /\ bridge s2 = bridge s
    /\ trace s1 = (trace s ++ t1)%list
    /\ (if reaches_native (bridge s)
        then Forall2 process_call_of pluginNames t1
        else t1 = [])
    /\ trace s2
       = (trace s1
          ++ map load_call (filter (processed_in results1) pluginNames))%list
    /\ (forall n, n ∈ pluginNames -> is_Some (results_get n results1))
    /\ (forall n, n ∈ pluginNames <-> is_Some (results_get n results))
    /\ results_keys results = list_to_set pluginNames ∖ {["__proto__"]}
    /\ (forall n, processed_in results n = processed_in results1 n)
    /\ (forall n r, results_get n results = Some r -> processed r = false ->
        loaded r = None)
    /\ (forall n r, results_get n results = Some r -> processed r = true ->
        is_Some (loaded r))
    /\ (forall n r, results_get n results1 = Some r -> processed r = false ->
        results_get n results = Some r).
Proof.
  destruct (process_all_spec pluginNames new_results s)
    as (s1 & results1 & t1 & Hp1 & Hb1 & Ht1 & Hc1 & Hin1 & Hout1 & Hkeys1).
  assert (Hdom : forall n, n ∈ pluginNames -> is_Some (results_get n results1)).
  { intros n Hn. destruct (Hin1 n Hn) as (r & -> & _). eauto. }
  destruct (load_all_spec pluginNames results1 s1 Hdom)
    as (s2 & results & Hp2 & Hb2 & Ht2 & Hout2 & Hproc & Hkeep & Hsome
        & Hload & Hkeys2).
  assert (Hmem : forall n, n ∈ pluginNames <-> is_Some (results_get n results)).
  { intros n. split.
    - intros Hn. by apply Hsome, Hdom.
    - intros [r Hr]. destruct (decide (n ∈ pluginNames)) as [|Hn]; [done|].
      rewrite (Hout2 _ Hn), (Hout1 _ Hn) in Hr.
      unfold results_get, new_results in Hr. simpl in Hr.
      destruct (String.eqb n "__proto__"); [done|].
      by rewrite lookup_empty in Hr. }
  exists s1, s2, results1, results, t1.
  split_and!; try done.
  - unfold processAndLoadPlugins. by rewrite (bind_ret _ _ _ _ _ Hp1).
  - congruence.
  - rewrite Ht2. f_equal. rewrite Hb1.
    destruct (reaches_native (bridge s)) eqn:Hreach; [done|].
    assert (Hnone : filter (processed_in results1) pluginNames = []);
      [|by rewrite Hnone].
    destruct (filter (processed_in results1) pluginNames) as [|n l] eqn:Hf;
      [done|].
    assert (Hn : n ∈ filter (processed_in results1) pluginNames)
      by (rewrite Hf; by left).
    apply list_elem_of_filter in Hn as [Hpn Hn].
    destruct (Hin1 n Hn) as (r & Hr & _ & Hreach').
    rewrite (processed_in_get _ _ _ Hr) in Hpn.
    apply Is_true_true in Hpn. specialize (Hreach' Hpn). congruence.
  - rewrite Hkeys2, Hkeys1. unfold results_keys, new_results. simpl.
    set_solver.
  - intros n r Hr Hp.
    assert (Hn : n ∈ pluginNames) by (apply Hmem; eauto).
    destruct (Hin1 n Hn) as (r1 & Hr1 & Hl1 & _).
    specialize (Hproc n) as Hpn.
    rewrite (processed_in_get _ _ _ Hr), (processed_in_get _ _ _ Hr1) in Hpn.
    rewrite (Hkeep n r1 Hr1) in Hr by congruence. congruence.
  - intros n r Hr Hp. eapply Hload; [|done|done]. apply Hmem. eauto.
Qed.

(** C5. When [__proto__] is among the names, [processAndLoadPlugins] returns
    an object that has no entry for it: the own properties of the result are
    the other names of the list, and the record made for [__proto__] has
    become the prototype of the result. *)
Theorem proto_name_has_no_entry (pluginNames : list string) (s : State) :
  "__proto__" ∈ pluginNames ->
  exists (s' : State) (results : Results) (r : PluginResult),
    processAndLoadPlugins pluginNames s = (s', Ret results)
    /\ "__proto__" ∉ results_keys results
    /\ results_keys results = list_to_set pluginNames ∖ {["__proto__"]}
    /\ proto results = Some r.
Proof.
  intros Hin.
  destruct (processAndLoadPlugins_run pluginNames s)
    as (s1 & s2 & results1 & results & t1 & _ & _ & Hrun & _ & _ & _ & _ & _
        & _ & Hmem & Hkeys & _).
  destruct (proj1 (Hmem "__proto__") Hin) as [r Hr].
  exists s2, results, r. split_and!; try done.
  rewrite Hkeys. set_solver.
Qed.

(** X18. The two phases of [processAndLoadPlugins]. It always returns and leaves
    the fields of the instance alone. It first makes one process call per
    name, in the order of the list, then one load call per name whose record
    says [processed], in the order of the list, and no other call; an
    instance that does not reach the library makes no call at all.
    [results[name]] is a record exactly for the names of the list, and the
    own properties of the result are these names without [__proto__]. A
    record with [processed] false has no [loaded] field, a record with
    [processed] true has one. The record of a name is decided by its last
    occurrence: a process attempt that returns false leaves
    [{processed: false}], one that throws leaves [{processed: false, error}];
    after a process attempt that returns true, [loaded] is what the load
    attempt returns, or false together with the message when it throws. *)
Theorem processAndLoadPlugins_two_phases (pluginNames : list string)
  (s : State) :
  exists (s1 s2 : State) (results1 results : Results) (t1 : list Event),
    process_all pluginNames new_results s = (s1, Ret results1)
    /\ processAndLoadPlugins pluginNames s = (s2, Ret results)
    /\ bridge s2 = bridge s
    /\ trace s1 = (trace s ++ t1)%list
    /\ (if reaches_native (bridge s)
        then Forall2 process_call_of pluginNames t1
        else t1 = [])
    /\ trace s2
       = (trace s1
          ++ map load_call (filter (processed_in results1) pluginNames))%list
    /\ (forall n, n ∈ pluginNames <-> is_Some (results_get n results))
    /\ results_keys results = list_to_set pluginNames ∖ {["__proto__"]}
    /\ (forall n, processed_in results n = processed_in results1 n)
    /\ (forall n r, results_get n results = Some r -> processed r = false ->
        loaded r = None)
    /\ (forall n r, results_get n results = Some r -> processed r = true ->
        is_Some (loaded r))
    /\ (forall pre post name,
        pluginNames = (pre ++ name :: post)%list ->
        name ∉ post ->
        exists r,
          results_get name results = Some r
          /\ match snd (processPlugin name
                          (fst (process_all pre new_results s))) with
             | Ret true =>
                 processed r = true
                 /\ match snd (loadPlugin name
                                 (fst (load_all pre results1 s1))) with
                    | Ret b => loaded r = Some b
                    | Throw e => loaded r = Some false /\ error r = Some e
                    | Diverge => False
                    end
             | Ret false => r = mkPluginResult false None None
             | Throw e => r = mkPluginResult false None (Some e)
             | Diverge => False
             end).
Proof.
  destruct (processAndLoadPlugins_run pluginNames s)
    as (s1 & s2 & results1 & results & t1 & Hp1 & Hp2 & Hrun & Hb1 & Hb2 & Ht1
        & Hc1 & Ht2 & Hdom & Hmem & Hkeys & Hproc & Hnone & Hsome & Hkeep).
  exists s1, s2, results1, results, t1.
  split_and!; try done.
  intros pre post name -> Hpost.
  destruct (process_all_last pre post name s s1 results1 Hpost Hp1)
    as (r1 & Hr1 & Hl1 & Hret & Hthrow).
  destruct (processPlugin_attempt name (fst (process_all pre new_results s)))
    as (t & Hd & _).
  destruct (snd (processPlugin name _)) as [[|]|e|] eqn:Hout; [| | |done].
  - specialize (Hret true eq_refl). subst r1.
    destruct (load_all_last pre post name results1 s1 s2 results _
                Hpost Hdom Hr1 eq_refl Hp2)
      as (r & Hr & Hp & Hd2 & Hb & He).
    exists r. split; [done|]. split; [done|].
    destruct (snd (loadPlugin name _)) as [b|e|]; [by apply Hb|by apply He|done].
  - specialize (Hret false eq_refl). subst r1.
    exists (mkPluginResult false None None). split; [|done].
    by apply Hkeep.
  - specialize (Hthrow e eq_refl). subst r1.
    exists (mkPluginResult false None (Some e)). split; [|done].
    by apply Hkeep.
Qed.

(** * Further properties *)

(** ** Computations that keep the frame *)

Lemma keeps_ret {A} (a : A) : keeps (ret a : M A).
Proof. by intros s. Qed.

Lemma keeps_throw {A} (e : string) : keeps (throw e : M A).
Proof. by intros s. Qed.

Lemma keeps_bind {A B} (m : M A) (k : A -> M B) :
  keeps m -> (forall a, keeps (k a)) -> keeps (bind m k).
Proof.
  intros Hm Hk s. unfold bind. specialize (Hm s).
  destruct (m s) as [s1 [a|e|]]; simpl in *; [|done|done].
  by rewrite Hk.
Qed.

Lemma keeps_try_catch {A} (m : M A) (h : string -> M A) :
  keeps m -> (forall e, keeps (h e)) -> keeps (try_catch m h).
Proof.
  intros Hm Hh s. unfold try_catch. specialize (Hm s).
  destruct (m s) as [s1 [a|e|]]; simpl in *; [done| |done].
  by rewrite Hh.
Qed.

Lemma keeps_get_bridge : keeps (get_bridge : M Bridge).
Proof. by intros s. Qed.

Lemma keeps_emit (e : Event) : keeps (emit e : M unit).
Proof. by intros s. Qed.

Lemma keeps_in_world {A} (op : World -> World * A) : keeps (in_world op : M A).
Proof. intros s. unfold in_world. by destruct (op (world s)). Qed.

Lemma keeps_in_world_r {A} (op : World -> World * outcome A) :
  keeps (in_world_r op : M A).
Proof. intros s. unfold in_world_r. by destruct (op (world s)). Qed.

Lemma keeps_read_world {A} (op : World -> A) : keeps (read_world op : M A).
Proof. by intros s. Qed.

Lemma keeps_convertCStringArray (fuel : nat) (p : Z) :
  keeps (convertCStringArray fuel p : M (list string)).
Proof.
  intros s. unfold convertCStringArray. by destruct (_convertCStringArrayToJS _ _ _).
Qed.

(** Breaks a computation into its steps and settles each of them. *)
Ltac keeps_steps :=
  repeat first
    [ apply keeps_ret | apply keeps_throw | apply keeps_get_bridge
    | apply keeps_emit | apply keeps_in_world | apply keeps_in_world_r
    | apply keeps_read_world | apply keeps_convertCStringArray
    | apply keeps_bind; [|intros ?]
    | apply keeps_try_catch; [|intros ?]
    | match goal with
      | |- keeps (if ?b then _ else _) => destruct b
      | |- keeps (match ?x with _ => _ end) => destruct x
      end ].

Lemma keeps_core_void (c : VoidCall) : keeps (core_void c).
Proof. unfold core_void. keeps_steps. Qed.

Lemma keeps_core_int (c : IntCall) : keeps (core_int c).
Proof. unfold core_int. keeps_steps. Qed.

Lemma keeps_core_str (c : StrCall) : keeps (core_str c).
Proof. unfold core_str. keeps_steps. Qed.

Lemma keeps_core_ptr (c : PtrCall) : keeps (core_ptr c).
Proof. unfold core_ptr. keeps_steps. Qed.

Lemma keeps_resolvePluginsDir : keeps resolvePluginsDir.
Proof. unfold resolvePluginsDir, existsSync. keeps_steps. Qed.

Lemma keeps_processPlugin (n : string) : keeps (processPlugin n).
Proof.
  unfold processPlugin. keeps_steps;
    first [apply keeps_resolvePluginsDir | apply keeps_core_str].
Qed.

Lemma keeps_loadPlugin (n : string) : keeps (loadPlugin n).
Proof. unfold loadPlugin. keeps_steps; apply keeps_core_int. Qed.

Lemma keeps_unloadPlugin (n : string) : keeps (unloadPlugin n).
Proof. unfold unloadPlugin. keeps_steps; apply keeps_core_int. Qed.

Lemma keeps_processAndLoadPlugin (n : string) : keeps (processAndLoadPlugin n).
Proof.
  unfold processAndLoadPlugin. keeps_steps;
    first [apply keeps_processPlugin | apply keeps_loadPlugin].
Qed.

Lemma keeps_getLoadedPlugins (fuel : nat) : keeps (getLoadedPlugins fuel).
Proof. unfold getLoadedPlugins. keeps_steps; apply keeps_core_ptr. Qed.

Lemma keeps_getKnownPlugins (fuel : nat) : keeps (getKnownPlugins fuel).
Proof. unfold getKnownPlugins. keeps_steps; apply keeps_core_ptr. Qed.

Lemma keeps_getPluginStatus (fuel : nat) : keeps (getPluginStatus fuel).
Proof.
  unfold getPluginStatus. keeps_steps;
    first [apply keeps_getLoadedPlugins | apply keeps_getKnownPlugins].
Qed.

Lemma keeps_exec : keeps exec.
Proof. unfold exec. keeps_steps; apply keeps_core_int. Qed.

Lemma keeps_process_all (names : list string) :
  forall acc, keeps (process_all names acc).
Proof.
  induction names as [|x rest IH]; intros acc; simpl.
  - apply keeps_ret.
  - apply keeps_bind; [|intros r; apply IH].
    unfold process_entry. keeps_steps; try apply keeps_processPlugin.
Qed.

Lemma keeps_load_all (names : list string) :
  forall acc, keeps (load_all names acc).
Proof.
  induction names as [|x rest IH]; intros acc; simpl.
  - apply keeps_ret.
  - destruct (results_get x acc) as [r|]; [|apply keeps_throw].
    destruct (processed r); [|apply IH].
    apply keeps_bind; [|intros r'; apply IH].
    unfold load_entry. keeps_steps; try apply keeps_loadPlugin.
Qed.

Lemma keeps_processAndLoadPlugins (names : list string) :
  keeps (processAndLoadPlugins names).
Proof.
  unfold processAndLoadPlugins.
  apply keeps_bind; [apply keeps_process_all|intros r; apply keeps_load_all].
Qed.

Lemma keeps_invoke_handler (h : Handler) (b : bool) (v : Value) (meta : Meta) :
  keeps (invoke_handler h b v meta).
Proof. destruct h; simpl; unfold call_user; keeps_steps. Qed.

Lemma keeps_ffi_callback (cb : FFICallback) (result : Z) (message : string) :
  keeps (ffi_callback cb result message).
Proof. unfold ffi_callback. keeps_steps; try apply keeps_invoke_handler. Qed.

Lemma keeps_interval_tick : keeps interval_tick.
Proof. unfold interval_tick. keeps_steps; try apply keeps_core_void. Qed.

Lemma keeps_fire_timer (t : TimerId) : keeps (fire_timer t).
Proof.
  intros s. unfold fire_timer. destruct (decide (t ∈ timers s)); [|done].
  apply keeps_interval_tick.
Qed.

(** ** Initialisation *)

(** [_loadLibrary] either throws with the fields of the instance as they
    were, or sets the handle to a library whose file existed when it was
    looked for. *)
Lemma loadLibrary_effect (s : State) :
  timers (fst (_loadLibrary s)) = timers s
  /\ next_timer (fst (_loadLibrary s)) = next_timer s
  /\ next_promise (fst (_loadLibrary s)) = next_promise s
  /\ ((exists e,
         snd (_loadLibrary s) = Throw e
         /\ bridge (fst (_loadLibrary s)) = bridge s
         /\ native_calls (trace (fst (_loadLibrary s)))
            = native_calls (trace s))
      \/ (exists p,
            snd (_loadLibrary s) = Ret tt
            /\ bridge (fst (_loadLibrary s))
               = with_LogosCore (Some (mkLibrary p)) (bridge s)
            /\ trace (fst (_loadLibrary s)) = (trace s ++ [ELibrary p])%list
            /\ fs_existsSync (world s) p = true
            /\ world (fst (_loadLibrary s)) = fst (ffi_Library (world s) p))).
Proof.
  unfold _loadLibrary, existsSync, read_world, bind, get_bridge, emit,
    in_world_r, modify, throw, ret.
  simpl.
  destruct (truthy (libPath (options (bridge s)))); simpl.
  all: repeat (case_match; simplify_eq/=).
  all: repeat match goal with
         | H : to_result ?o = _ |- _ => destruct o; simplify_eq/=
         end.
  all: repeat (split; [reflexivity|]).
  all: try (left; eexists; split; [reflexivity|]; split; [reflexivity|];
            rewrite ?native_calls_app; simpl; by rewrite ?app_nil_r).
  all: right; eexists; split; [reflexivity|]; simpl.
  all: repeat split; try done.
  all: try (by apply negb_false_iff).
  all: match goal with H : ffi_Library _ _ = _ |- _ => by rewrite H end.
Qed.

(** With a library handle, [_initializeCore] always reaches
    [logos_core_init]; it returns only after handing an existing plugins
    directory to [logos_core_set_plugins_dir]. *)
Lemma initializeCore_effect (s : State) :
  is_Some (LogosCore (bridge s)) ->
  frame (fst (_initializeCore s)) = frame s
  /\ ((exists d,
         snd (_initializeCore s) = Ret tt
         /\ trace (fst (_initializeCore s))
            = (trace s
               ++ [ENative (NVoid (logos_core_init 0));
                   ENative (NVoid (logos_core_set_plugins_dir d))])%list
         /\ fs_existsSync
              (fst (native_void (world s) (logos_core_init 0))) d = true)
      \/ (exists e tail,
            snd (_initializeCore s) = Throw e
            /\ trace (fst (_initializeCore s))
               = (trace s ++ ENative (NVoid (logos_core_init 0)) :: tail)%list)).
Proof.
  intros [lib Hlib]. split.
  { unfold _initializeCore, existsSync. keeps_steps;
      first [apply keeps_core_void | apply keeps_resolvePluginsDir]. }
  destruct (_initializeCore s) as [s' r] eqn:Hrun. simpl.
  revert Hrun. unfold _initializeCore.
  destruct (core_void_effect (logos_core_init 0) s) as (Hb & _ & Hc).
  rewrite Hlib in Hc. destruct Hc as [Ht Hr].
  unfold bind at 1.
  destruct (core_void (logos_core_init 0) s) as [s1 r1] eqn:Hcall.
  simpl in Hb, Ht, Hr.
  assert (Hw : world s1 = fst (native_void (world s) (logos_core_init 0))).
  { revert Hcall. unfold core_void, bind, get_bridge, emit, in_world_r.
    rewrite Hlib. simpl.
    destruct (native_void (world s) (logos_core_init 0)). intros H.
    by inversion H. }
  destruct (native_void (world s) (logos_core_init 0)) as [w [[]|e]];
    simpl in Hr; subst r1; simpl.
  2: { intros H; inversion H; subst. right. exists e, []. by rewrite Ht. }
  destruct (resolvePluginsDir_reads s1) as [d Hd].
  rewrite (bind_ret _ _ _ _ _ Hd).
  unfold bind at 1, existsSync, read_world. simpl.
  destruct (fs_existsSync (world s1) d) eqn:Hex; simpl.
  - destruct (core_void_effect (logos_core_set_plugins_dir d) s1)
      as (_ & _ & Hc2).
    rewrite Hb, Hlib in Hc2. destruct Hc2 as [Ht2 Hr2].
    destruct (core_void (logos_core_set_plugins_dir d) s1) as [s2 r2].
    simpl in *.
    destruct (native_void (world s1) (logos_core_set_plugins_dir d))
      as [w2 [[]|e2]]; simpl in Hr2; subst r2;
      intros H; inversion H; subst.
    + left. exists d. rewrite Ht2, Ht, <- app_assoc. simpl.
      repeat split; try done; by rewrite <- Hw.
    + right. exists e2, [ENative (NVoid (logos_core_set_plugins_dir d))].
      rewrite Ht2, Ht, <- app_assoc. by simpl.
  - intros H; inversion H; subst. right. eexists _, [].
    split; [reflexivity|]. by rewrite Ht.
Qed.

(** The three ways [init] ends on an instance that is not initialized: the
    library could not be loaded; the library was loaded and the core could
    not be set up; both went through. *)
Lemma init_cases (s : State) :
  isInitialized (bridge s) = false ->
  timers (fst (init s)) = timers s
  /\ next_timer (fst (init s)) = next_timer s
  /\ next_promise (fst (init s)) = next_promise s
  /\ ((exists e,
         snd (init s) = Throw ("Failed to initialize LogosAPI: " ++ e)
         /\ bridge (fst (init s)) = bridge s
         /\ native_calls (trace (fst (init s))) = native_calls (trace s))
      \/ (exists e p tail,
            snd (init s) = Throw ("Failed to initialize LogosAPI: " ++ e)
            /\ bridge (fst (init s))
               = with_LogosCore (Some (mkLibrary p)) (bridge s)
            /\ trace (fst (init s))
               = (trace s
                  ++ ELibrary p :: ENative (NVoid (logos_core_init 0))
                     :: tail)%list)
      \/ (exists p d,
            snd (init s) = Ret true
            /\ bridge (fst (init s))
               = with_isInitialized true
                   (with_LogosCore (Some (mkLibrary p)) (bridge s))
            /\ trace (fst (init s))
               = (trace s
                  ++ [ELibrary p; ENative (NVoid (logos_core_init 0));
                      ENative (NVoid (logos_core_set_plugins_dir d))])%list
            /\ fs_existsSync (world s) p = true
            /\ fs_existsSync
                 (fst (native_void (fst (ffi_Library (world s) p))
                         (logos_core_init 0))) d = true)).
Proof.
  intros Hinit.
  destruct (init s) as [s' r] eqn:Hrun. simpl. revert Hrun.
  unfold init. unfold bind at 1. unfold get_bridge at 1. rewrite Hinit.
  unfold try_catch. unfold bind at 1.
  destruct (loadLibrary_effect s) as (Htm & Hnt & Hnp & Hload).
  destruct (_loadLibrary s) as [s1 r1] eqn:Hl. simpl in *.
  destruct Hload as [(e & -> & Hb & Hn)|(p & -> & Hb & Ht & Hex & Hw)].
  { intros H; inversion H; subst. repeat split; try done. left. eauto. }
  unfold bind at 1.
  destruct (initializeCore_effect s1) as (Hf & Hcore).
  { rewrite Hb. simpl. eauto. }
  destruct (_initializeCore s1) as [s2 r2] eqn:Hi. simpl in *.
  unfold frame in Hf. inversion Hf as [[Hb2 Htm2 Hnt2 Hnp2]].
  destruct Hcore as [(d & -> & Ht2 & Hex2)|(e & tail & -> & Ht2)].
  - unfold bind, modify, ret. simpl.
    intros H; inversion H; subst. simpl.
    repeat split; try congruence.
    right. right. exists p, d. rewrite Hb2, Hb, Ht2, Ht, <- app_assoc. simpl.
    repeat split; try done. by rewrite <- Hw.
  - intros H; inversion H; subst.
    repeat split; try congruence.
    right. left. exists e, p, tail.
    rewrite Hb2, Hb, Ht2, Ht, <- app_assoc. by simpl.
Qed.

(** X1. On an instance that is not initialized [init] either returns true,
    leaving the instance initialized with a library handle, or throws an
    error whose message opens with [Failed to initialize LogosAPI: ], leaving
    it not initialized; the options, the tables, the pump, the started flag
    and the proxy cache are as they were. *)
Theorem init_returns_true_or_wraps (s : State) :
  isInitialized (bridge s) = false ->
  ((snd (init s) = Ret true
    /\ isInitialized (bridge (fst (init s))) = true
    /\ is_Some (LogosCore (bridge (fst (init s)))))
   \/ (exists e,
         snd (init s) = Throw ("Failed to initialize LogosAPI: " ++ e)
         /\ isInitialized (bridge (fst (init s))) = false))
  /\ options (bridge (fst (init s))) = options (bridge s)
  /\ isStarted (bridge (fst (init s))) = isStarted (bridge s)
  /\ eventProcessingInterval (bridge (fst (init s)))
     = eventProcessingInterval (bridge s)
  /\ callbacks (bridge (fst (init s))) = callbacks (bridge s)
  /\ eventListeners (bridge (fst (init s))) = eventListeners (bridge s)
  /\ _pluginProxies (bridge (fst (init s))) = _pluginProxies (bridge s)
  /\ timers (fst (init s)) = timers s.
Proof.
  intros Hinit.
  destruct (init_cases s Hinit) as (Htm & _ & _ & Hcases).
  destruct Hcases
    as [(e & Hr & Hb & _)|[(e & p & tail & Hr & Hb & _)|(p & d & Hr & Hb & _)]];
    rewrite Hb; simpl; repeat split; try done.
  - right. eauto.
  - right. eauto.
  - left. eauto.
Qed.

(** X2. When [init] returns, it has bound one library, whose file existed,
    then called [logos_core_init] and then
    [logos_core_set_plugins_dir] on a directory that existed when it was
    looked for, and nothing else. *)
Theorem init_native_sequence (s s' : State) (b : bool) :
  init s = (s', Ret b) ->
  b = true
  /\ exists p d,
      trace s'
      = (trace s
         ++ [ELibrary p; ENative (NVoid (logos_core_init 0));
             ENative (NVoid (logos_core_set_plugins_dir d))])%list
      /\ LogosCore (bridge s') = Some (mkLibrary p)
      /\ fs_existsSync (world s) p = true
      /\ fs_existsSync
           (fst (native_void (fst (ffi_Library (world s) p))
                   (logos_core_init 0))) d = true.
Proof.
  intros Hrun.
  destruct (isInitialized (bridge s)) eqn:Hinit.
  { revert Hrun. unfold init, bind, get_bridge. by rewrite Hinit. }
  destruct (init_cases s Hinit) as (_ & _ & _ & Hcases).
  rewrite Hrun in Hcases. simpl in Hcases.
  destruct Hcases
    as [(e & Hr & _)|[(e & p & tail & Hr & _)
                     |(p & d & Hr & Hb & Ht & Hex & Hex2)]];
    try discriminate.
  inversion Hr; subst b. split; [done|].
  exists p, d. rewrite Hb. by repeat split.
Qed.

(** X3. When [init] throws after a native entry point was reached, the
    library handle stays set on an instance that is not initialized; a tick
    of the pump on that instance calls [logos_core_process_events]. *)
Theorem init_failure_keeps_handle (s s' : State) (e : string) :
  isInitialized (bridge s) = false ->
  init s = (s', Throw e) ->
  native_calls (trace s') <> native_calls (trace s) ->
  isInitialized (bridge s') = false
  /\ is_Some (LogosCore (bridge s'))
  /\ trace (fst (interval_tick s'))
     = (trace s' ++ [ENative (NVoid logos_core_process_events)])%list.
Proof.
  intros Hinit Hrun Hnative.
  destruct (init_cases s Hinit) as (_ & _ & _ & Hcases).
  rewrite Hrun in Hcases. simpl in Hcases.
  destruct Hcases
    as [(e0 & _ & _ & Hn)|[(e0 & p & tail & _ & Hb & _)|(p & d & Hr & _)]];
    [done| |discriminate].
  assert (Hcore : LogosCore (bridge s') = Some (mkLibrary p))
    by by rewrite Hb.
  split; [by rewrite Hb|]. split; [eauto|].
  destruct (core_void_effect logos_core_process_events s') as (_ & _ & Hc).
  rewrite Hcore in Hc. destruct Hc as [Ht _].
  unfold interval_tick, bind, get_bridge. simpl. by rewrite Hcore.
Qed.

(** ** Construction *)


(** ** Starting *)

(** X5. [start] on a started instance throws and does nothing. When [start]
    returns, it returns true, the instance was not started and now is, and
    exactly [logos_core_start] was called; a second [start] then throws.
    When [start] throws, the started flag is as it was. *)
Theorem start_at_most_once (s : State) :
  (isInitialized (bridge s) = true ->
   isStarted (bridge s) = true ->
   start s = (s, Throw "LogosAPI is already started"))
  /\ (forall (s' : State) (b : bool),
         start s = (s', Ret b) ->
         b = true
         /\ isStarted (bridge s) = false
         /\ isStarted (bridge s') = true
         /\ trace s' = (trace s ++ [ENative (NVoid logos_core_start)])%list
         /\ start s' = (s', Throw "LogosAPI is already started"))
  /\ (forall (s' : State) (e : string),
         start s = (s', Throw e) ->
         isStarted (bridge s') = isStarted (bridge s)).
Proof.
  split; [|split].
  - intros Hi Hs. unfold start, bind, get_bridge. by rewrite Hi, Hs.
  - intros s' b.
    destruct (core_void_effect logos_core_start s) as (Hb & _ & Hc).
    unfold start. unfold bind at 1. unfold get_bridge at 1.
    destruct (isInitialized (bridge s)) eqn:Hi; [|done]. simpl.
    destruct (isStarted (bridge s)) eqn:Hs; [done|].
    unfold bind at 1.
    destruct (core_void logos_core_start s) as [s1 r1]. simpl in *.
    destruct (LogosCore (bridge s)); [|by inversion Hc; subst].
    destruct Hc as [Ht Hr].
    destruct r1 as [[]|e|]; try done.
    unfold bind, modify, ret. simpl. intros H; inversion H; subst. simpl.
    repeat split; try done.
    unfold bind, get_bridge. simpl. by rewrite Hb, Hi.
  - intros s' e.
    destruct (core_void_effect logos_core_start s) as (Hb & _ & Hc).
    unfold start. unfold bind at 1. unfold get_bridge at 1.
    destruct (isInitialized (bridge s)) eqn:Hi; simpl;
      [|intros H; by inversion H].
    destruct (isStarted (bridge s)) eqn:Hs;
      [intros H; inversion H; by subst|].
    unfold bind at 1.
    destruct (core_void logos_core_start s) as [s1 r1]. simpl in *.
    destruct r1 as [[]|e1|]; try done.
    intros H; inversion H; subst. by rewrite Hb.
Qed.

(** ** The pump *)

(** X6. Starting the pump while it runs throws and sets no second timer;
    stopping it while it does not run returns false and changes nothing. On
    an instance without a pump, [startEventProcessing] returns true and
    records a new timer, whose ticks are the function of the pump;
    [stopEventProcessing] then returns true and clears that timer, after
    which its ticks do nothing and a second stop returns false; starting and
    stopping call no native entry point. *)
Theorem pump_start_stop (interval interval' : option Num) (s : State) :
  (forall t : TimerId,
      eventProcessingInterval (bridge s) = Some t ->
      startEventProcessing interval s
      = (s, Throw "Event processing is already running"))
  /\ (eventProcessingInterval (bridge s) = None ->
      stopEventProcessing s = (s, Ret false))
  /\ (eventProcessingInterval (bridge s) = None ->
      let s1 := fst (startEventProcessing interval s) in
      let t := next_timer s in
      let s2 := fst (stopEventProcessing s1) in
      snd (startEventProcessing interval s) = Ret true
      /\ eventProcessingInterval (bridge s1) = Some t
      /\ t ∈ timers s1
      /\ fire_timer t s1 = interval_tick s1
      /\ startEventProcessing interval' s1
         = (s1, Throw "Event processing is already running")
      /\ snd (stopEventProcessing s1) = Ret true
      /\ eventProcessingInterval (bridge s2) = None
      /\ (t ∉ timers s2)
      /\ fire_timer t s2 = (s2, Ret tt)
      /\ stopEventProcessing s2 = (s2, Ret false)
      /\ native_calls (trace s2) = native_calls (trace s)).
Proof.
  split; [|split].
  - intros t Ht. unfold startEventProcessing, bind, get_bridge.
    by rewrite Ht.
  - intros Hn. unfold stopEventProcessing, bind, get_bridge. by rewrite Hn.
  - intros Hn. cbv zeta.
    unfold startEventProcessing, stopEventProcessing, setInterval,
      clearInterval, bind, get_bridge, modify, ret.
    simpl. rewrite Hn. simpl.
    assert (Hin : next_timer s ∈ ({[next_timer s]} ∪ timers s : gset TimerId))
      by set_solver.
    assert (Hout : next_timer s
                   ∉ (({[next_timer s]} ∪ timers s) ∖ {[next_timer s]}
                      : gset TimerId)) by set_solver.
    repeat split; try done.
    + unfold fire_timer. simpl. by rewrite decide_True.
    + unfold fire_timer. simpl. by rewrite decide_False.
    + rewrite !native_calls_app. simpl. by rewrite !app_nil_r.
Qed.

(** ** Teardown, continued *)

(** X7. When [cleanup] throws, the native cleanup call is what threw: the
    library handle was set, the pump has already been stopped and its timer
    cleared, and the tables and both flags are as they were. *)
Theorem cleanup_is_not_atomic (s s' : State) (e : string) :
  cleanup s = (s', Throw e) ->
  is_Some (LogosCore (bridge s))
  /\ (exists t0,
        trace s' = (t0 ++ [ENative (NVoid logos_core_cleanup)])%list)
  /\ eventProcessingInterval (bridge s') = None
  /\ (forall t : TimerId,
         eventProcessingInterval (bridge s) = Some t -> t ∉ timers s')
  /\ callbacks (bridge s') = callbacks (bridge s)
  /\ eventListeners (bridge s') = eventListeners (bridge s)
  /\ isInitialized (bridge s') = isInitialized (bridge s)
  /\ isStarted (bridge s') = isStarted (bridge s).
Proof.
  unfold cleanup, stopEventProcessing, clearInterval, core_void, bind,
    get_bridge, modify, emit, in_world_r, ret.
  simpl. intros H.
  repeat (case_match; simplify_eq/=);
    repeat match goal with
      | H : to_result ?o = _ |- _ => destruct o; simplify_eq/=
      end;
    repeat split; eauto; try done;
    intros t' Ht'; simplify_eq; set_solver.
Qed.

(** X8. [cleanup] calls [logos_core_cleanup] exactly when the library handle
    is set, whether or not the instance is initialized, and never resets the
    handle, the options or the proxy cache; so a second [cleanup] on an
    instance with a handle calls [logos_core_cleanup] a second time. *)
Theorem cleanup_native_calls (s s1 : State) :
  cleanup s = (s1, Ret tt) ->
  LogosCore (bridge s1) = LogosCore (bridge s)
  /\ options (bridge s1) = options (bridge s)
  /\ _pluginProxies (bridge s1) = _pluginProxies (bridge s)
  /\ (LogosCore (bridge s) = None ->
      native_calls (trace s1) = native_calls (trace s))
  /\ (is_Some (LogosCore (bridge s)) ->
      native_calls (trace s1)
      = (native_calls (trace s) ++ [ENative (NVoid logos_core_cleanup)])%list
      /\ forall s2 : State,
          cleanup s1 = (s2, Ret tt) ->
          native_calls (trace s2)
          = (native_calls (trace s)
             ++ [ENative (NVoid logos_core_cleanup);
                 ENative (NVoid logos_core_cleanup)])%list).
Proof.
  assert (Hone : forall a b : State,
    cleanup a = (b, Ret tt) ->
    LogosCore (bridge b) = LogosCore (bridge a)
    /\ options (bridge b) = options (bridge a)
    /\ _pluginProxies (bridge b) = _pluginProxies (bridge a)
    /\ native_calls (trace b)
       = (native_calls (trace a)
          ++ match LogosCore (bridge a) with
             | Some _ => [ENative (NVoid logos_core_cleanup)]
             | None => []
             end)%list).
  { intros a b.
    unfold cleanup, stopEventProcessing, clearInterval, core_void, bind,
      get_bridge, modify, emit, in_world_r, ret.
    simpl. intros H.
    repeat (case_match; simplify_eq/=);
      rewrite ?native_calls_app; simpl; rewrite ?app_nil_r;
      repeat split; try done. }
  intros Hrun. destruct (Hone s s1 Hrun) as (Hc & Ho & Hp & Hn).
  repeat split; try done.
  - intros Hnone. rewrite Hn, Hnone. by rewrite app_nil_r.
  - destruct H as [lib Hlib]. by rewrite Hn, Hlib.
  - destruct H as [lib Hlib]. intros s2 Hrun2.
    destruct (Hone s1 s2 Hrun2) as (_ & _ & _ & Hn2).
    rewrite Hn2, Hc, Hn, Hlib. by rewrite <- app_assoc.
Qed.

(** ** What every sequence of operations keeps *)

Lemma consistent_frame (s s' : State) :
  bridge s' = bridge s -> timers s' = timers s ->
  next_timer s' = next_timer s ->
  consistent s -> consistent s'.
Proof. unfold consistent. intros -> -> ->. done. Qed.

Lemma consistent_keeps {A} (m : M A) (s : State) :
  keeps m -> consistent s -> consistent (fst (m s)).
Proof.
  intros Hk. specialize (Hk s). unfold frame in Hk.
  inversion Hk as [[Hb Ht Hn Hp]]. by apply consistent_frame.
Qed.

Lemma discard_fst {A} (m : M A) (s : State) :
  fst (discard m s) = fst (m s).
Proof. unfold discard, bind, ret. by destruct (m s) as [s1 [a|e|]]. Qed.

(** An asynchronous call leaves the frame alone or adds one record, made of
    the handler and of the dispatcher built for it. *)
Lemma callPluginMethodAsync_frame (pluginName methodName params : string)
  (callback : Handler) (s : State) :
  let s' := fst (callPluginMethodAsync pluginName methodName params callback s)
  in
  timers s' = timers s /\ next_timer s' = next_timer s
  /\ next_promise s' = next_promise s
  /\ (bridge s' = bridge s
      \/ exists id,
          bridge s'
          = with_callbacks
              (<[id := mkCallbackRecord callback
                         (_createFFICallback callback id)]>
                 (callbacks (bridge s)))
              (bridge s)).
Proof.
  cbv zeta.
  unfold callPluginMethodAsync, _generateCallbackId, core_void, bind,
    get_bridge, modify, emit, in_world, in_world_r, throw, ret.
  simpl.
  repeat (case_match; simplify_eq/=); repeat split; eauto.
Qed.

Lemma registerEventListener_frame (pluginName eventName : string)
  (callback : Handler) (s : State) :
  let s' := fst (registerEventListener pluginName eventName callback s) in
  timers s' = timers s /\ next_timer s' = next_timer s
  /\ next_promise s' = next_promise s
  /\ (bridge s' = bridge s
      \/ exists id,
          bridge s'
          = with_eventListeners
              (<[id := mkListenerRecord pluginName eventName callback
                         (_createFFICallback callback id)]>
                 (eventListeners (bridge s)))
              (bridge s)).
Proof.
  cbv zeta.
  unfold registerEventListener, _generateCallbackId, core_void, bind,
    get_bridge, modify, emit, in_world, in_world_r, throw, ret.
  simpl.
  repeat (case_match; simplify_eq/=); repeat split; eauto.
Qed.

Lemma consistent_with_callbacks (s s' : State) (id : string) (cb : Handler) :
  consistent s ->
  timers s' = timers s -> next_timer s' = next_timer s ->
  bridge s'
  = with_callbacks
      (<[id := mkCallbackRecord cb (_createFFICallback cb id)]>
         (callbacks (bridge s)))
      (bridge s) ->
  consistent s'.
Proof.
  unfold consistent. intros (H1 & H2 & H3 & H4 & H5 & H6 & H7) -> -> ->.
  simpl. repeat split; try done.
  intros id' r Hr. destruct (decide (id = id')) as [->|Hne].
  - rewrite lookup_insert_eq in Hr. by inversion Hr.
  - rewrite lookup_insert_ne in Hr by done. by apply H6.
Qed.

Lemma consistent_with_eventListeners (s s' : State) (id pl ev : string)
  (cb : Handler) :
  consistent s ->
  timers s' = timers s -> next_timer s' = next_timer s ->
  bridge s'
  = with_eventListeners
      (<[id := mkListenerRecord pl ev cb (_createFFICallback cb id)]>
         (eventListeners (bridge s)))
      (bridge s) ->
  consistent s'.
Proof.
  unfold consistent. intros (H1 & H2 & H3 & H4 & H5 & H6 & H7) -> -> ->.
  simpl. repeat split; try done.
  intros id' r Hr. destruct (decide (id = id')) as [->|Hne].
  - rewrite lookup_insert_eq in Hr. by inversion Hr.
  - rewrite lookup_insert_ne in Hr by done. by apply H7.
Qed.

Lemma consistent_callPluginMethodAsync (pl me pa : string) (cb : Handler)
  (s : State) :
  consistent s -> consistent (fst (callPluginMethodAsync pl me pa cb s)).
Proof.
  intros Hc.
  destruct (callPluginMethodAsync_frame pl me pa cb s)
    as (Ht & Hn & _ & [Hb|[id Hb]]).
  - by apply (consistent_frame s).
  - by apply (consistent_with_callbacks s _ id cb).
Qed.

Lemma consistent_registerEventListener (pl ev : string) (cb : Handler)
  (s : State) :
  consistent s -> consistent (fst (registerEventListener pl ev cb s)).
Proof.
  intros Hc.
  destruct (registerEventListener_frame pl ev cb s)
    as (Ht & Hn & _ & [Hb|[id Hb]]).
  - by apply (consistent_frame s).
  - by apply (consistent_with_eventListeners s _ id pl ev cb).
Qed.

Lemma consistent_init (s : State) : consistent s -> consistent (fst (init s)).
Proof.
  intros Hc. destruct (isInitialized (bridge s)) eqn:Hinit.
  { unfold init, bind, get_bridge. by rewrite Hinit. }
  destruct (init_cases s Hinit) as (Ht & Hn & _ & Hcases).
  destruct Hc as (H1 & H2 & H3 & H4 & H5 & H6 & H7).
  assert (Hs : isStarted (bridge s) = false).
  { destruct (isStarted (bridge s)); [|done]. rewrite H2 in Hinit; done. }
  unfold consistent. rewrite Ht, Hn.
  destruct Hcases
    as [(e & _ & Hb & _)|[(e & p & tail & _ & Hb & _)|(p & d & _ & Hb & _)]];
    rewrite Hb; simpl; repeat split; try done; eauto; congruence.
Qed.

Lemma start_frame (s : State) :
  timers (fst (start s)) = timers s
  /\ next_timer (fst (start s)) = next_timer s
  /\ (bridge (fst (start s)) = bridge s
      \/ (bridge (fst (start s)) = with_isStarted true (bridge s)
          /\ isInitialized (bridge s) = true)).
Proof.
  unfold start, core_void, bind, get_bridge, modify, emit, in_world_r,
    throw, ret.
  simpl.
  repeat (case_match; simplify_eq/=); repeat split; eauto.
  right. split; [done|]. by apply negb_false_iff.
Qed.

Lemma consistent_start (s : State) : consistent s -> consistent (fst (start s)).
Proof.
  intros Hc. destruct (start_frame s) as (Ht & Hn & [Hb|[Hb Hi]]).
  - by apply (consistent_frame s).
  - destruct Hc as (H1 & H2 & H3 & H4 & H5 & H6 & H7).
    unfold consistent. rewrite Ht, Hn, Hb. simpl. repeat split; try done.
Qed.

Lemma consistent_startEventProcessing (interval : option Num) (s : State) :
  consistent s -> consistent (fst (startEventProcessing interval s)).
Proof.
  intros (H1 & H2 & H3 & H4 & H5 & H6 & H7).
  unfold consistent, startEventProcessing, setInterval, bind, get_bridge,
    modify, throw, ret.
  simpl.
  destruct (eventProcessingInterval (bridge s)) eqn:Hi; simpl;
    split_and!; try done; rewrite H3; set_solver.
Qed.

Lemma consistent_stopEventProcessing (s : State) :
  consistent s -> consistent (fst (stopEventProcessing s)).
Proof.
  intros (H1 & H2 & H3 & H4 & H5 & H6 & H7).
  unfold consistent, stopEventProcessing, clearInterval, bind, get_bridge,
    modify, ret.
  simpl.
  destruct (eventProcessingInterval (bridge s)) eqn:Hi; simpl;
    split_and!; try done; rewrite H3; set_solver.
Qed.

Lemma cleanup_frame (s : State) :
  next_timer (fst (cleanup s)) = next_timer (fst (stopEventProcessing s))
  /\ timers (fst (cleanup s)) = timers (fst (stopEventProcessing s))
  /\ (bridge (fst (cleanup s)) = bridge (fst (stopEventProcessing s))
      \/ bridge (fst (cleanup s))
         = with_isStarted false
             (with_isInitialized false
                (with_eventListeners ∅
                   (with_callbacks ∅
                      (bridge (fst (stopEventProcessing s))))))).
Proof.
  unfold cleanup, stopEventProcessing, clearInterval, core_void, bind,
    get_bridge, modify, emit, in_world_r, throw, ret.
  simpl.
  repeat (case_match; simplify_eq/=); repeat split; eauto.
Qed.

Lemma consistent_cleanup (s : State) :
  consistent s -> consistent (fst (cleanup s)).
Proof.
  intros Hc.
  pose proof (consistent_stopEventProcessing s Hc) as Hc1.
  destruct (cleanup_frame s) as (Hn & Ht & [Hb|Hb]).
  - by apply (consistent_frame (fst (stopEventProcessing s))).
  - destruct Hc1 as (H1 & H2 & H3 & H4 & H5 & H6 & H7).
    unfold consistent. rewrite Ht, Hn, Hb. simpl. repeat split; try done.
Qed.

Lemma consistent_getPluginProxy (n : string) (s : State) :
  consistent s -> consistent (fst (_getPluginProxy n s)).
Proof.
  intros (H1 & H2 & H3 & H4 & H5 & H6 & H7).
  unfold consistent, _getPluginProxy, bind, get_bridge, modify, ret.
  simpl.
  destruct (_pluginProxies (bridge s) !! n) eqn:Hn; simpl;
    repeat split; try done.
  intros n' p Hp. destruct (decide (n = n')) as [->|Hne].
  - rewrite lookup_insert_eq in Hp. by inversion Hp.
  - rewrite lookup_insert_ne in Hp by done. by apply H5.
Qed.

Lemma consistent_call_method (pl prop : string) (args : list JSValue)
  (s : State) :
  consistent s -> consistent (fst (call_method pl prop args s)).
Proof.
  intros Hc. unfold call_method, new_Promise.
  unfold bind at 1. simpl.
  set (s0 := mkState _ _ _ _ _ _).
  assert (Hc0 : consistent s0) by by apply (consistent_frame s).
  unfold bind at 1, try_catch. unfold bind at 1, makeParamsJson.
  destruct (map_toParam 0 args) as [ps|e|]; simpl.
  - unfold bind at 1.
    pose proof (consistent_callPluginMethodAsync pl prop
                  (JSON_stringify_params ps) (HSettle (next_promise s)) s0 Hc0)
      as Hc1.
    destruct (callPluginMethodAsync _ _ _ _ s0) as [s1 [id|e|]]; simpl in *;
      try done.
  - done.
  - done.
Qed.

Lemma consistent_run_op (o : Op) (s : State) :
  consistent s -> consistent (fst (run_op o s)).
Proof.
  intros Hc. destruct o as [|c| | | | | | | | |]; simpl;
    rewrite ?discard_fst.
  - by apply consistent_init.
  - destruct c; simpl; rewrite discard_fst.
    + by apply consistent_start.
    + apply consistent_keeps; [apply keeps_getLoadedPlugins|done].
    + apply consistent_keeps; [apply keeps_getKnownPlugins|done].
    + apply consistent_keeps; [apply keeps_getPluginStatus|done].
    + apply consistent_keeps; [apply keeps_processPlugin|done].
    + apply consistent_keeps; [apply keeps_loadPlugin|done].
    + apply consistent_keeps; [apply keeps_unloadPlugin|done].
    + apply consistent_keeps; [apply keeps_processAndLoadPlugin|done].
    + by apply consistent_callPluginMethodAsync.
    + by apply consistent_registerEventListener.
    + apply consistent_keeps; [apply keeps_exec|done].
  - apply consistent_keeps; [apply keeps_processAndLoadPlugins|done].
  - by apply consistent_startEventProcessing.
  - by apply consistent_stopEventProcessing.
  - by apply consistent_cleanup.
  - by apply consistent_getPluginProxy.
  - destruct callback as [f|]; simpl; [|done].
    by apply consistent_registerEventListener.
  - by apply consistent_call_method.
  - apply consistent_keeps; [apply keeps_ffi_callback|done].
  - apply consistent_keeps; [apply keeps_fire_timer|done].
Qed.

(** X9. After construction and any sequence of method calls, proxy uses,
    deliveries and timer ticks: an initialized instance has its library
    handle; a started instance is initialized; the host runs the timer of
    the pump and no other timer; a cached proxy carries the name it is cached
    under; every record in the two tables holds the dispatcher made for its
    own handler and identifier. *)
Theorem consistent_always (opts : Options) (w : World) (os : list Op) :
  consistent (run_ops os (fst (new_LogosAPI opts w))).
Proof.
  assert (Hstart : consistent (fst (new_LogosAPI opts w))).
  { unfold new_LogosAPI.
    set (s0 := mkState (mkBridge opts None false false None ∅ ∅ ∅) w [] ∅ 0 0).
    assert (Hc0 : consistent s0).
    { unfold consistent. simpl. split_and!; try done. }
    destruct (default true (autoInit opts)); [|done].
    pose proof (consistent_init s0 Hc0) as Hc1.
    unfold bind, ret. by destruct (init s0) as [s1 [b|e|]]. }
  revert Hstart. generalize (fst (new_LogosAPI opts w)).
  induction os as [|o os IH]; intros s Hc; simpl; [done|].
  pose proof (consistent_run_op o s Hc) as Hc1.
  destruct (run_op o s) as [s1 [[]|e|]]; simpl in *; [by apply IH| |done].
  by apply IH.
Qed.

(** ** Tables only grow *)






(** ** The life of a pending record *)








(** ** Registration and delivery *)

(** X11. The record is stored before the native call is made: when
    [callPluginMethodAsync] or [registerEventListener] throws on an
    initialized instance, the record made for the call is in its table all
    the same. *)
Theorem record_stored_before_native_call (pluginName name params : string)
  (callback : Handler) (s s' : State) (e : string) :
  isInitialized (bridge s) = true ->
  (callPluginMethodAsync pluginName name params callback s = (s', Throw e) ->
   exists id,
     callbacks (bridge s') !! id
     = Some (mkCallbackRecord callback (_createFFICallback callback id)))
  /\ (registerEventListener pluginName name callback s = (s', Throw e) ->
      exists id,
        eventListeners (bridge s') !! id
        = Some (mkListenerRecord pluginName name callback
                  (_createFFICallback callback id))).
Proof.
  intros Hinit. split.
  - unfold callPluginMethodAsync, _generateCallbackId, core_void, bind,
      get_bridge, modify, emit, in_world, in_world_r, throw, ret.
    simpl. rewrite Hinit. simpl. intros H.
    repeat (case_match; simplify_eq/=); eexists; apply lookup_insert_eq.
  - unfold registerEventListener, _generateCallbackId, core_void, bind,
      get_bridge, modify, emit, in_world, in_world_r, throw, ret.
    simpl. rewrite Hinit. simpl. intros H.
    repeat (case_match; simplify_eq/=); eexists; apply lookup_insert_eq.
Qed.



(** ** Native string arrays, continued *)

Lemma convert_loop_sound (w : World) (a : Z) :
  forall (fuel i : nat) (result l : list string),
    convert_loop fuel w a (Z.of_nat i) result = Some l ->
    exists ptrs : list Z,
      l = (result ++ map (readCString w) ptrs)%list
      /\ (forall (j : nat) (p : Z),
            ptrs !! j = Some p ->
            p <> 0
            /\ readPointer w a (Z.of_nat (i + j) * sizeof_pointer) = p)
      /\ readPointer w a (Z.of_nat (i + length ptrs) * sizeof_pointer) = 0
      /\ (length ptrs < fuel)%nat.
Proof.
  induction fuel as [|fuel IH]; intros i result l H; simpl in H; [done|].
  destruct (Z.eqb_spec (readPointer w a (Z.of_nat i * sizeof_pointer)) 0)
    as [Hz|Hnz].
  - inversion H; subst l. exists []. simpl.
    rewrite app_nil_r, Nat.add_0_r. split_and!; try done; lia.
  - replace (Z.of_nat i + 1) with (Z.of_nat (S i)) in H by lia.
    destruct (IH (S i) _ l H) as (ptrs & -> & Hent & Hend & Hlen).
    exists (readPointer w a (Z.of_nat i * sizeof_pointer) :: ptrs).
    split_and!.
    + by rewrite <- app_assoc.
    + intros [|j] p Hp; simpl in Hp.
      * inversion Hp; subst p. by rewrite Nat.add_0_r.
      * destruct (Hent j p Hp) as [Hp0 Hread]. split; [done|].
        by replace (i + S j)%nat with (S i + j)%nat by lia.
    + simpl. by replace (i + S (length ptrs))%nat
        with (S i + length ptrs)%nat by lia.
    + simpl. lia.
Qed.

(** X13. What [_convertCStringArrayToJS] returns is what the memory holds:
    the result is empty for the null pointer; for another pointer it is the
    strings of the entries that precede the first null entry of the array,
    one string per entry, in order. *)
Theorem convertCStringArrayToJS_sound (fuel : nat) (w : World) (a : Z)
  (l : list string) :
  _convertCStringArrayToJS fuel w a = Some l ->
  (a = 0 /\ l = [])
  \/ (a <> 0
      /\ exists ptrs : list Z,
          null_terminated w a ptrs
          /\ l = map (readCString w) ptrs
          /\ (length ptrs < fuel)%nat).
Proof.
  unfold _convertCStringArrayToJS.
  destruct (Z.eqb_spec a 0) as [->|Hnz]; intros H.
  - left. by inversion H.
  - right. split; [done|].
    destruct (convert_loop_sound w a fuel 0 [] l H)
      as (ptrs & -> & Hent & Hend & Hlen).
    exists ptrs. split_and!; try done; by split.
Qed.

Lemma convert_loop_more_fuel (w : World) (a : Z) :
  forall (fuel fuel' : nat) (i : Z) (result l : list string),
    convert_loop fuel w a i result = Some l ->
    (fuel <= fuel')%nat ->
    convert_loop fuel' w a i result = Some l.
Proof.
  induction fuel as [|fuel IH]; intros fuel' i result l H Hle; [done|].
  destruct fuel' as [|fuel']; [lia|]. simpl in *.
  destruct (readPointer w a (i * sizeof_pointer) =? 0); [done|].
  apply (IH fuel'); [done|lia].
Qed.

Lemma convert_loop_none (w : World) (a : Z) :
  forall (fuel i : nat) (result : list string),
    convert_loop fuel w a (Z.of_nat i) result = None
    <-> (forall j : nat,
            (j < fuel)%nat ->
            readPointer w a (Z.of_nat (i + j) * sizeof_pointer) <> 0).
Proof.
  induction fuel as [|fuel IH]; intros i result; simpl.
  - split; [intros _ j Hj; lia|done].
  - destruct (Z.eqb_spec (readPointer w a (Z.of_nat i * sizeof_pointer)) 0)
      as [Hz|Hnz].
    + split; [done|]. intros H. specialize (H 0%nat).
      rewrite Nat.add_0_r in H. exfalso. apply H; [lia|done].
    + replace (Z.of_nat i + 1) with (Z.of_nat (S i)) by lia.
      rewrite IH. split.
      * intros H [|j] Hj; [by rewrite Nat.add_0_r|].
        replace (i + S j)%nat with (S i + j)%nat by lia. apply H. lia.
      * intros H j Hj.
        replace (S i + j)%nat with (i + S j)%nat by lia. apply H. lia.
Qed.

(** X14. The loop of [_convertCStringArrayToJS] is still running after [fuel]
    steps exactly when the pointer is not null and none of the first [fuel]
    entries is null; once it returns a list, more steps return the same
    list. *)
Theorem convertCStringArrayToJS_runs_until_null (fuel : nat) (w : World)
  (a : Z) :
  (_convertCStringArrayToJS fuel w a = None
   <-> a <> 0
       /\ forall j : nat,
           (j < fuel)%nat ->
           readPointer w a (Z.of_nat j * sizeof_pointer) <> 0)
  /\ (forall (fuel' : nat) (l : list string),
         _convertCStringArrayToJS fuel w a = Some l ->
         (fuel <= fuel')%nat ->
         _convertCStringArrayToJS fuel' w a = Some l).
Proof.
  unfold _convertCStringArrayToJS. split.
  - destruct (Z.eqb_spec a 0) as [->|Hnz].
    + split; [done|]. by intros [H _].
    + pose proof (convert_loop_none w a fuel 0 []) as Hnone.
      simpl in Hnone. rewrite Hnone. split.
      * intros H. split; [done|exact H].
      * by intros [_ H].
  - intros fuel' l. destruct (a =? 0); [done|].
    apply convert_loop_more_fuel.
Qed.

(** ** Queries *)

Lemma core_ptr_effect (c : PtrCall) (s : State) (lib : Library) (w : World)
  (o : outcome Z) :
  LogosCore (bridge s) = Some lib ->
  native_ptr (world s) c = (w, o) ->
  core_ptr c s = (set_world w (log (ENative (NPtr c)) s), to_result o).
Proof.
  intros Hlib Hn. unfold core_ptr, bind, get_bridge, emit, in_world_r.
  simpl. by rewrite Hlib, Hn.
Qed.

(** X15. On an initialized instance with its library handle,
    [getLoadedPlugins] makes one call of [logos_core_get_loaded_plugins] and
    converts the array it gets back: a null pointer gives the empty list, a
    null-terminated array gives its strings. [getKnownPlugins] does the same
    with [logos_core_get_known_plugins]. An error thrown by the native call
    comes out unchanged. *)
Theorem plugin_queries_read_native (fuel : nat) (s : State) (lib : Library)
  (c : PtrCall) (w : World) :
  let query :=
    match c with
    | logos_core_get_loaded_plugins => getLoadedPlugins fuel
    | logos_core_get_known_plugins => getKnownPlugins fuel
    end in
  let s' := set_world w (log (ENative (NPtr c)) s) in
  isInitialized (bridge s) = true ->
  LogosCore (bridge s) = Some lib ->
  (forall e, native_ptr (world s) c = (w, Throws e) ->
             query s = (s', Throw e))
  /\ (native_ptr (world s) c = (w, Returns 0) -> query s = (s', Ret []))
  /\ (forall (p : Z) (ptrs : list Z),
         native_ptr (world s) c = (w, Returns p) ->
         p <> 0 ->
         null_terminated w p ptrs ->
         (length ptrs < fuel)%nat ->
         query s = (s', Ret (map (readCString w) ptrs))).
Proof.
  cbv zeta. intros Hinit Hlib.
  assert (Hq : forall o,
    native_ptr (world s) c = (w, o) ->
    match c with
    | logos_core_get_loaded_plugins => getLoadedPlugins fuel
    | logos_core_get_known_plugins => getKnownPlugins fuel
    end s
    = bind (fun s0 => (s0, to_result o)) (convertCStringArray fuel)
           (set_world w (log (ENative (NPtr c)) s))).
  { intros o Hn. pose proof (core_ptr_effect c s lib w o Hlib Hn) as Hc.
    destruct c; unfold getLoadedPlugins, getKnownPlugins;
      unfold bind at 1; unfold get_bridge at 1; rewrite Hinit; simpl;
      unfold bind; rewrite Hc; by destruct o. }
  split_and!.
  - intros e Hn. by rewrite (Hq _ Hn).
  - intros Hn. by rewrite (Hq _ Hn).
  - intros p ptrs Hn Hp Hnt Hlen. rewrite (Hq _ Hn).
    unfold bind, convertCStringArray. simpl.
    unfold _convertCStringArrayToJS.
    destruct (Z.eqb_spec p 0) as [?|_]; [done|].
    pose proof (convert_loop_suffix w p ptrs [] fuel [] Hnt Hlen) as Hc.
    change (convert_loop fuel w p 0 [] = Some (map (readCString w) ptrs))
      in Hc.
    by rewrite Hc.
Qed.

(** X16. [getPluginStatus] is the query of the loaded plugins followed by the
    query of the known plugins: when it returns, both queries returned and
    their lists are its fields; when the first query throws, the second is
    not made. *)
Theorem getPluginStatus_composes (fuel : nat) (s : State) :
  (forall (s' : State) (st : PluginStatus),
      getPluginStatus fuel s = (s', Ret st) ->
      exists s1 : State,
        getLoadedPlugins fuel s = (s1, Ret (status_loaded st))
        /\ getKnownPlugins fuel s1 = (s', Ret (status_known st)))
  /\ (forall (s1 : State) (e : string),
         getLoadedPlugins fuel s = (s1, Throw e) ->
         getPluginStatus fuel s = (s1, Throw e)).
Proof.
  split.
  - intros s' st. unfold getPluginStatus. unfold bind at 1.
    destruct (getLoadedPlugins fuel s) as [s1 [loaded|e|]]; try done.
    unfold bind, ret.
    destruct (getKnownPlugins fuel s1) as [s2 [known|e|]] eqn:Hk; try done.
    intros H; inversion H; subst. exists s1. by rewrite Hk.
  - intros s1 e H. unfold getPluginStatus, bind. by rewrite H.
Qed.

(** ** Reflective method calls *)







(** ** Plugin proxies *)

(** X20. [_getPluginProxy] keeps one proxy per plugin name: on a name that is
    not in the cache it makes the proxy of that name, stores it and returns
    it; on a cached name it returns the cached proxy and changes nothing; a
    second call always returns what the first returned and changes nothing.
    No other entry of the cache is touched, and neither the world nor the
    trace is. *)
Theorem getPluginProxy_caches (pluginName : string) (s : State) :
  let s1 := fst (_getPluginProxy pluginName s) in
  let proxy := default (mkPluginProxy pluginName)
                 (_pluginProxies (bridge s) !! pluginName) in
  _getPluginProxy pluginName s
  = (match _pluginProxies (bridge s) !! pluginName with
     | Some _ => s
     | None =>
         set_bridge
           (fun b =>
              with_pluginProxies
                (<[pluginName := mkPluginProxy pluginName]> (_pluginProxies b))
                b) s
     end,
     Ret proxy)
  /\ _pluginProxies (bridge s1) !! pluginName = Some proxy
  /\ _getPluginProxy pluginName s1 = (s1, Ret proxy)
  /\ (forall other : string,
         other <> pluginName ->
         _pluginProxies (bridge s1) !! other
         = _pluginProxies (bridge s) !! other)
  /\ world s1 = world s
  /\ trace s1 = trace s.
Proof.
  cbv zeta. unfold _getPluginProxy, bind, get_bridge, modify, ret.
  destruct (_pluginProxies (bridge s) !! pluginName) as [p|] eqn:Hp; simpl.
  - rewrite Hp. by split_and!.
  - rewrite lookup_insert_eq. split_and!; try done.
    intros other Hne. by rewrite lookup_insert_ne.
Qed.

(** X21. Reading a property of the object the constructor returns: a symbol
    that the instance does not have reads as undefined, a name the instance
    has (a field, a method, an inherited name) reads as that member and
    touches nothing, and every other name reads as the plugin proxy of that
    name, taken from the cache or made and cached. *)
Theorem api_get_routes (inherited : string -> bool) (s : State) :
  api_get inherited PSymbol s = (s, Ret AUndefined)
  /\ (forall name : string,
         in_target inherited name = true ->
         api_get inherited (PString name) s = (s, Ret (AMember name)))
  /\ (forall name : string,
         in_target inherited name = false ->
         api_get inherited (PString name) s
         = (fst (_getPluginProxy name s),
            Ret (APlugin (default (mkPluginProxy name)
                            (_pluginProxies (bridge s) !! name)))))
  /\ (forall name : string,
         name ∈ class_methods \/ name ∈ instance_fields ->
         in_target inherited name = true)
  /\ in_target (fun _ => false) "chat" = false.
Proof.
  split_and!.
  - done.
  - intros name Hin. unfold api_get. by rewrite Hin.
  - intros name Hin. unfold api_get. rewrite Hin.
    unfold _getPluginProxy, bind, get_bridge, modify, ret.
    by destruct (_pluginProxies (bridge s) !! name).
  - intros name [Hin|Hin]; unfold in_target.
    + rewrite (bool_decide_eq_true_2 _ Hin). by rewrite orb_true_r.
    + by rewrite (bool_decide_eq_true_2 _ Hin).
  - reflexivity.
Qed.

(** ** Finding the library *)

(** X22. Where [_loadLibrary] looks for the library: at the [libPath] option
    when that is a non-empty string; otherwise at the file [liblogos_core]
    with the extension of the platform ([.dylib] on darwin, [.dll] on win32,
    [.so] elsewhere), in [lib] next to the module when it exists there and
    in the build tree when it does not. When no file is at the place it
    settled on, it throws [Library file not found at: ...] and does nothing
    else; when a file is there it binds it, and sets the handle when the
    binding returns. *)
Theorem loadLibrary_path (s : State) :
  let ext := _getLibraryExtension in
  let bundled := path_resolve [dirname; "lib"; "liblogos_core" ++ ext] in
  let built :=
    path_resolve [dirname; "../../../logos-liblogos/build/lib";
                  "liblogos_core" ++ ext] in
  let chosen :=
    if truthy (libPath (options (bridge s)))
    then default "" (libPath (options (bridge s)))
    else if fs_existsSync (world s) bundled then bundled else built in
  (process_platform = "darwin" -> ext = ".dylib")
  /\ (process_platform = "win32" -> ext = ".dll")
  /\ (process_platform <> "darwin" -> process_platform <> "win32" ->
      ext = ".so")
  /\ (fs_existsSync (world s) chosen = false ->
      _loadLibrary s
      = (s,
         Throw ("Library file not found at: " ++ chosen
                ++ ". Please build the core library first.")))
  /\ (fs_existsSync (world s) chosen = true ->
      _loadLibrary s
      = match ffi_Library (world s) chosen with
        | (w, Returns _) =>
            (mkState (with_LogosCore (Some (mkLibrary chosen)) (bridge s)) w
               (trace s ++ [ELibrary chosen]) (timers s) (next_timer s)
               (next_promise s),
             Ret tt)
        | (w, Throws e) =>
            (mkState (bridge s) w (trace s ++ [ELibrary chosen]) (timers s)
               (next_timer s) (next_promise s),
             Throw e)
        end).
Proof.
  cbv zeta. split_and!.
  - intros H. unfold _getLibraryExtension. by rewrite H.
  - intros H. unfold _getLibraryExtension. by rewrite H.
  - intros H1 H2. unfold _getLibraryExtension.
    apply String.eqb_neq in H1, H2. by rewrite H1, H2.
  - unfold _loadLibrary, existsSync, read_world, bind, get_bridge, emit,
      in_world_r, modify, throw, ret.
    simpl.
    destruct (truthy (libPath (options (bridge s)))); simpl.
    + by intros ->.
    + destruct (fs_existsSync (world s) (path_resolve [dirname; "lib"; _]));
        simpl; by intros ->.
  - unfold _loadLibrary, existsSync, read_world, bind, get_bridge, emit,
      in_world_r, modify, throw, ret.
    simpl.
    destruct (truthy (libPath (options (bridge s)))); simpl.
    + intros ->. simpl. by destruct (ffi_Library _ _) as [w [[]|e]].
    + destruct (fs_existsSync (world s) (path_resolve [dirname; "lib"; _]));
        simpl; intros ->; simpl; by destruct (ffi_Library _ _) as [w [[]|e]].
Qed.

End Properties.

(** * The properties on the concrete runtime *)

Section Instances.

Import Demo.

Local Notation "'let*' x ':=' c1 'in' c2" := (bind c1 (fun x => c2))
  (at level 10, x pattern, c1 at level 100, c2 at level 200).



(** The pump has no lifecycle check: on an instance that was never
    initialized [startEventProcessing] returns true instead of throwing; the
    batch loader returns its records instead of throwing. *)
Lemma startEventProcessing_before_init :
  isInitialized (bridge fresh) = false
  /\ snd (startEventProcessing None fresh) = Ret true
  /\ ~ fails_fast (startEventProcessing None) fresh
  /\ ~ fails_fast (processAndLoadPlugins ["a"]) fresh.
Proof.
  repeat split.
  - intros (message & H & _). vm_compute in H. discriminate.
  - intros (message & H & _). vm_compute in H. discriminate.
Qed.

(** The lifecycle checks on the concrete runtime. *)
Lemma lifecycle_checks_witness :
  (isInitialized (bridge fresh) = false
   /\ exists message,
       run_guarded (call_loadPlugin "chat") fresh = (fresh, Throw message)
       /\ not_initialized_message message)
  /\ (isInitialized (bridge ready) = true
      /\ init ready = (ready, Throw "LogosAPI is already initialized"))
  /\ (eventProcessingInterval (bridge fresh) = None
      /\ snd (startEventProcessing None fresh) = Ret true
      /\ trace (fst (startEventProcessing None fresh))
         = [ESetInterval 0 "100"]
      /\ eventProcessingInterval (bridge (fst (startEventProcessing None fresh)))
         = Some 0%nat
      /\ 0%nat ∈ timers (fst (startEventProcessing None fresh))).
Proof.
  split; [|split].
  - split; [reflexivity|].
    exact (proj1 (lifecycle_checks fresh) eq_refl (call_loadPlugin "chat")).
  - split; [reflexivity|].
    exact (proj1 (proj2 (lifecycle_checks ready)) eq_refl).
  - split; [reflexivity|].
    rewrite (proj1 (proj2 (proj2 (lifecycle_checks fresh)) eq_refl None)).
    simpl. split_and!; [reflexivity|reflexivity|reflexivity|set_solver].
Defined.

(** The pump survives teardown: after [cleanup] has returned,
    [startEventProcessing] returns true instead of throwing, and the tick of
    its interval invokes [logos_core_process_events]. *)
Lemma pump_runs_after_cleanup :
  cleanup ready = (cleaned, Ret tt)
  /\ snd (startEventProcessing None cleaned) = Ret true
  /\ ~ fails_fast (startEventProcessing None) cleaned
  /\ native_calls
       (trace (fst (fire_timer 0 (fst (startEventProcessing None cleaned)))))
     = (native_calls (trace cleaned)
        ++ [ENative (NVoid logos_core_process_events)])%list.
Proof.
  repeat split.
  intros (message & H & _). vm_compute in H. discriminate.
Qed.

(** Teardown on the concrete runtime, with the pump running. *)
Lemma after_cleanup_witness :
  cleanup pumping = (stopped, Ret tt)
  /\ eventProcessingInterval (bridge pumping) = Some 0%nat
  /\ isInitialized (bridge stopped) = false
  /\ timers stopped = timers pumping ∖ {[0%nat]}
  /\ trace stopped
     = (trace pumping
        ++ [EClearInterval 0] ++ [ENative (NVoid logos_core_cleanup)])%list
  /\ (0%nat ∉ timers stopped)
  /\ fire_timer 0 stopped = (stopped, Ret tt)
  /\ exists message,
      run_guarded (call_getLoadedPlugins 8) stopped = (stopped, Throw message)
      /\ not_initialized_message message.
Proof.
  assert (H : cleanup pumping = (stopped, Ret tt)) by (vm_compute; reflexivity).
  destruct (after_cleanup pumping stopped H)
    as (Hi & _ & Ht & Htr & Hf & _ & _ & Hg & _).
  destruct (Hf 0%nat eq_refl) as [Hnot Hfire].
  split; [exact H|]. split; [reflexivity|]. split; [exact Hi|].
  split; [exact Ht|]. split; [exact Htr|]. split; [exact Hnot|].
  split; [exact Hfire|]. exact (Hg (call_getLoadedPlugins 8)).
Defined.

(** A function as argument on the concrete runtime: [JSON.stringify] returns
    [undefined] for it, and so does the encoding. *)
Lemma undefined_json_has_no_value_witness :
  JSON_stringify DFunction = Returns None
  /\ _inferTypeAndValue (JOther DFunction)
     = Ret (mkInferred "string" SUndefined)
  /\ toParam (JOther DFunction) 1 = Ret (mkParam "arg1" SUndefined "string")
  /\ makeParamsJson [JNumber "42"; JOther DFunction] ready
     = (ready,
        Ret ("[{name:arg0,value:42,type:int},"
             ++ "{name:arg1,value:,type:string}]")).
Proof.
  destruct (@undefined_json_has_no_value Z string DNum DObj demo_runtime
              DFunction eq_refl) as (Hinf & _ & Hparam).
  split; [reflexivity|]. split; [exact Hinf|].
  split; [exact (Hparam 1%nat)|]. vm_compute. reflexivity.
Defined.

(** Argument encoding on the concrete runtime: [42], [3.14], a plain object, an object that
    refers to itself, and the name of the third argument. *)
Lemma inferTypeAndValue_encoding_witness :
  (Number_isInteger ("42" : DNum) = true
   /\ _inferTypeAndValue (JNumber "42") = Ret (mkInferred "int" (SStr "42")))
  /\ (Number_isInteger ("3.14" : DNum) = false
      /\ _inferTypeAndValue (JNumber "3.14")
         = Ret (mkInferred "double" (SStr "3.14")))
  /\ (JSON_stringify (DPlain "{}") = Returns (Some "{}")
      /\ _inferTypeAndValue (JOther (DPlain "{}"))
         = Ret (mkInferred "string" (SStr "{}")))
  /\ (String_of_obj DCyclic = Returns "[object Object]"
      /\ _inferTypeAndValue (JOther DCyclic)
         = Ret (mkInferred "string" (SStr "[object Object]")))
  /\ (map_toParam 0 [JNumber "42"; JString "hi"; JBool true]
      = Ret [mkParam "arg0" (SStr "42") "int";
             mkParam "arg1" (SStr "hi") "string";
             mkParam "arg2" (SStr "true") "bool"]
      /\ exists inferred : Inferred,
          _inferTypeAndValue (JBool true) = Ret inferred
          /\ [mkParam "arg0" (SStr "42") "int";
              mkParam "arg1" (SStr "hi") "string";
              mkParam "arg2" (SStr "true") "bool"] !! 2%nat
             = Some (mkParam "arg2" (value inferred) (type inferred))).
Proof.
  pose proof (@inferTypeAndValue_encoding Z string DNum DObj demo_runtime)
    as (_ & Hint & Hdouble & _ & _ & _ & Hjson & Hthrows & Hparam).
  split; [|split; [|split; [|split]]]; (split; [reflexivity|]).
  - exact (Hint "42" eq_refl).
  - exact (Hdouble "3.14" eq_refl).
  - exact (Hjson (DPlain "{}") (Some "{}") eq_refl).
  - exact (Hthrows DCyclic _ "[object Object]" eq_refl eq_refl).
  - exact (Hparam [JNumber "42"; JString "hi"; JBool true] _ 2%nat
             (JBool true) eq_refl eq_refl).
Defined.

(** Batch loading on the concrete runtime: of [a], [b], [c] the plugin [b]
    fails to process. *)
Lemma processAndLoadPlugins_two_phases_witness :
  exists results : Results,
    snd (processAndLoadPlugins ["a"; "b"; "c"] ready) = Ret results
    /\ (exists r, results_get "a" results = Some r
                  /\ processed r = true /\ loaded r = Some true)
    /\ results_get "b" results = Some (mkPluginResult false None None)
    /\ (exists r, results_get "c" results = Some r
                  /\ processed r = true /\ loaded r = Some true)
    /\ trace (fst (processAndLoadPlugins ["a"; "b"; "c"] ready))
       = (trace (fst (process_all ["a"; "b"; "c"] new_results ready))
          ++ [load_call "a"; load_call "c"])%list.
Proof.
  destruct (processAndLoadPlugins_two_phases ["a"; "b"; "c"] ready)
    as (s1 & s2 & results1 & results & t1 & Hp1 & Hrun & _ & _ & _ & Ht2 & _
        & _ & _ & _ & _ & Hlast).
  vm_compute in Hp1. inversion Hp1; subst s1 results1. clear Hp1.
  exists results. rewrite Hrun. split; [reflexivity|].
  split; [|split; [|split]].
  - destruct (Hlast [] ["b"; "c"] "a" eq_refl) as (r & Hr & Hm);
      [compute_done|].
    vm_compute in Hm. exists r. by destruct Hm.
  - destruct (Hlast ["a"] ["c"] "b" eq_refl) as (r & Hr & Hm);
      [compute_done|].
    vm_compute in Hm. by subst r.
  - destruct (Hlast ["a"; "b"] [] "c" eq_refl) as (r & Hr & Hm);
      [compute_done|].
    vm_compute in Hm. exists r. by destruct Hm.
  - simpl. rewrite Ht2. vm_compute. reflexivity.
Defined.

(** The name [__proto__] on the concrete runtime: the result has the entry
    of [a] and no other; the record of [__proto__] is its prototype. *)
Lemma proto_name_has_no_entry_witness :
  "__proto__" ∈ ["a"; "__proto__"]
  /\ snd (processAndLoadPlugins ["a"; "__proto__"] ready)
     = Ret (mkResults {["a" := mkPluginResult true (Some true) None]}
                      (Some (mkPluginResult true (Some true) None)))
  /\ exists (s' : DState) (results : Results) (r : PluginResult),
      processAndLoadPlugins ["a"; "__proto__"] ready = (s', Ret results)
      /\ "__proto__" ∉ results_keys results
      /\ results_keys results = list_to_set ["a"; "__proto__"] ∖ {["__proto__"]}
      /\ proto results = Some r.
Proof.
  assert (Hin : "__proto__" ∈ ["a"; "__proto__"]) by compute_done.
  split; [exact Hin|]. split; [vm_compute; reflexivity|].
  exact (proto_name_has_no_entry ["a"; "__proto__"] ready Hin).
Defined.

(** Process-and-load on the concrete runtime: [b] fails to process, [d] fails to load, [a]
    does both. *)
Lemma processAndLoadPlugin_outcomes_witness :
  (processPlugin "b" ready = (fst (processPlugin "b" ready), Ret false)
   /\ snd (processAndLoadPlugin "b" ready)
      = Throw "Failed to process plugin: b")
  /\ (processPlugin "d" ready = (fst (processPlugin "d" ready), Ret true)
      /\ snd (loadPlugin "d" (fst (processPlugin "d" ready))) = Ret false
      /\ snd (processAndLoadPlugin "d" ready)
         = Throw "Failed to load plugin: d")
  /\ (processPlugin "a" ready = (fst (processPlugin "a" ready), Ret true)
      /\ snd (loadPlugin "a" (fst (processPlugin "a" ready))) = Ret true
      /\ snd (processAndLoadPlugin "a" ready) = Ret true).
Proof.
  split; [|split].
  - assert (H : processPlugin "b" ready
                = (fst (processPlugin "b" ready), Ret false))
      by (vm_compute; reflexivity).
    split; [exact H|].
    destruct (proj1 (processAndLoadPlugin_outcomes "b" ready) _ H) as [-> _].
    reflexivity.
  - assert (H : processPlugin "d" ready
                = (fst (processPlugin "d" ready), Ret true))
      by (vm_compute; reflexivity).
    assert (H' : loadPlugin "d" (fst (processPlugin "d" ready))
                 = (fst (loadPlugin "d" (fst (processPlugin "d" ready))),
                    Ret false))
      by (vm_compute; reflexivity).
    split; [exact H|]. split; [by rewrite H'|].
    rewrite (proj1 (proj2 (processAndLoadPlugin_outcomes "d" ready)) _ _ H H').
    reflexivity.
  - assert (H : processPlugin "a" ready
                = (fst (processPlugin "a" ready), Ret true))
      by (vm_compute; reflexivity).
    assert (H' : loadPlugin "a" (fst (processPlugin "a" ready))
                 = (fst (loadPlugin "a" (fst (processPlugin "a" ready))),
                    Ret true))
      by (vm_compute; reflexivity).
    split; [exact H|]. split; [by rewrite H'|].
    rewrite (proj2 (proj2 (processAndLoadPlugin_outcomes "a" ready)) _ _ H H').
    reflexivity.
Defined.


(** Dispatch on the concrete runtime: the user function [1] throws. *)
Lemma dispatcher_contains_exceptions_witness :
  Date_toISOString (world ready) = (world ready, "2026-01-01T00:00:00.000Z")
  /\ snd (invoke_handler (HUser 1) true (parseMessage "{}")
            (mkMeta "x" "2026-01-01T00:00:00.000Z" "{}") ready)
     = Throw "boom"
  /\ snd (ffi_callback (mkFFICallback (HUser 1) "x") 1 "{}" ready) = Ret tt.
Proof.
  split; [reflexivity|]. split; [reflexivity|].
  pose proof (proj1 (proj2
    (@dispatcher_contains_exceptions Z string DNum DObj demo_runtime))
    (mkFFICallback (HUser 1) "x") 1 "{}" ready
    (fst (invoke_handler (HUser 1) true (parseMessage "{}")
            (mkMeta "x" "2026-01-01T00:00:00.000Z" "{}") ready))
    (world ready) "2026-01-01T00:00:00.000Z" "boom" eq_refl) as H.
  rewrite H; [reflexivity|].
  vm_compute. reflexivity.
Defined.

(** String arrays on the concrete runtime: the array at address 1000 holds the pointers
    2000 and 2100 and a null. *)
Lemma convertCStringArrayToJS_reads_until_null_witness :
  (1000 <> 0
   /\ null_terminated (world ready) 1000 [2000; 2100]
   /\ (length [2000; 2100] < 3)%nat)
  /\ _convertCStringArrayToJS 3 (world ready) 1000 = Some ["chat"; "waku"].
Proof.
  assert (Hnz : 1000 <> 0) by discriminate.
  assert (Hnt : null_terminated (world ready) 1000 [2000; 2100]).
  { split; [|reflexivity].
    intros [|[|i]] p Hp; simpl in Hp; inversion Hp; subst;
      split; (discriminate || reflexivity). }
  assert (Hlen : (length [2000; 2100] < 3)%nat) by (simpl; lia).
  split; [exact (conj Hnz (conj Hnt Hlen))|].
  exact (proj2 (convertCStringArrayToJS_reads_until_null
                  (world ready) 1000 [2000; 2100] 3) Hnz Hnt Hlen).
Defined.

(** ** The further properties on the concrete runtimes *)

(** Initialisation of an instance made with [autoInit: false]. *)
Lemma init_returns_true_or_wraps_witness :
  isInitialized (bridge fresh) = false
  /\ snd (init fresh) = Ret true
  /\ ((snd (init fresh) = Ret true
       /\ isInitialized (bridge (fst (init fresh))) = true
       /\ is_Some (LogosCore (bridge (fst (init fresh)))))
      \/ (exists e,
            snd (init fresh) = Throw ("Failed to initialize LogosAPI: " ++ e)
            /\ isInitialized (bridge (fst (init fresh))) = false))
  /\ callbacks (bridge (fst (init fresh))) = callbacks (bridge fresh).
Proof.
  destruct (init_returns_true_or_wraps fresh eq_refl)
    as (Hcases & _ & _ & _ & Hcb & _).
  split; [reflexivity|]. split; [reflexivity|].
  split; [exact Hcases|exact Hcb].
Defined.

(** The calls of that initialisation. *)
Lemma init_native_sequence_witness :
  init fresh = (fst (init fresh), Ret true)
  /\ trace (fst (init fresh))
     = [ELibrary "/sdk/lib/liblogos_core.so";
        ENative (NVoid (logos_core_init 0));
        ENative (NVoid (logos_core_set_plugins_dir "/app/plugins"))]
  /\ exists p d,
      trace (fst (init fresh))
      = (trace fresh
         ++ [ELibrary p; ENative (NVoid (logos_core_init 0));
             ENative (NVoid (logos_core_set_plugins_dir d))])%list
      /\ LogosCore (bridge (fst (init fresh))) = Some (mkLibrary p)
      /\ fs_existsSync (world fresh) p = true
      /\ fs_existsSync
           (fst (native_void (fst (ffi_Library (world fresh) p))
                   (logos_core_init 0))) d = true.
Proof.
  assert (H : init fresh = (fst (init fresh), Ret true))
    by (vm_compute; reflexivity).
  split; [exact H|]. split; [vm_compute; reflexivity|].
  exact (proj2 (init_native_sequence fresh (fst (init fresh)) true H)).
Defined.

(** An initialisation that fails after the library was bound: the plugins
    directory is missing. *)
Lemma init_failure_keeps_handle_witness :
  isInitialized (bridge misconfigured) = false
  /\ snd (@init _ _ _ _ faulty_runtime misconfigured)
     = Throw ("Failed to initialize LogosAPI: "
              ++ "Plugins directory not found at: /missing. "
              ++ "Please ensure plugins are available in your application directory.")
  /\ isInitialized (bridge (fst (@init _ _ _ _ faulty_runtime misconfigured)))
     = false
  /\ is_Some (LogosCore (bridge (fst (@init _ _ _ _ faulty_runtime
                                        misconfigured))))
  /\ trace (fst (@interval_tick _ _ _ _ faulty_runtime
                   (fst (@init _ _ _ _ faulty_runtime misconfigured))))
     = (trace (fst (@init _ _ _ _ faulty_runtime misconfigured))
        ++ [ENative (NVoid logos_core_process_events)])%list.
Proof.
  assert (H : @init _ _ _ _ faulty_runtime misconfigured
              = (fst (@init _ _ _ _ faulty_runtime misconfigured),
                 Throw ("Failed to initialize LogosAPI: "
                        ++ "Plugins directory not found at: /missing. "
                        ++ "Please ensure plugins are available in your application directory.")))
    by (vm_compute; reflexivity).
  assert (Hcalls :
    native_calls (trace (fst (@init _ _ _ _ faulty_runtime misconfigured)))
    <> native_calls (trace misconfigured))
    by (vm_compute; discriminate).
  split; [reflexivity|]. split; [vm_compute; reflexivity|].
  exact (@init_failure_keeps_handle _ _ _ _ faulty_runtime misconfigured _ _
           eq_refl H Hcalls).
Defined.

(** A teardown that throws, with the pump running. *)
Lemma cleanup_is_not_atomic_witness :
  @cleanup _ _ _ _ faulty_runtime faulty_pumping
  = (fst (@cleanup _ _ _ _ faulty_runtime faulty_pumping),
     Throw "cleanup failed")
  /\ eventProcessingInterval (bridge faulty_pumping) = Some 0%nat
  /\ eventProcessingInterval
       (bridge (fst (@cleanup _ _ _ _ faulty_runtime faulty_pumping))) = None
  /\ (0%nat ∉ timers (fst (@cleanup _ _ _ _ faulty_runtime faulty_pumping)))
  /\ isInitialized
       (bridge (fst (@cleanup _ _ _ _ faulty_runtime faulty_pumping)))
     = isInitialized (bridge faulty_pumping).
Proof.
  assert (H : @cleanup _ _ _ _ faulty_runtime faulty_pumping
              = (fst (@cleanup _ _ _ _ faulty_runtime faulty_pumping),
                 Throw "cleanup failed")) by (vm_compute; reflexivity).
  destruct (@cleanup_is_not_atomic _ _ _ _ faulty_runtime faulty_pumping _ _ H)
    as (_ & _ & Hpump & Htimer & _ & _ & Hinit & _).
  split; [exact H|]. split; [reflexivity|]. split; [exact Hpump|].
  split; [exact (Htimer 0%nat eq_refl)|exact Hinit].
Defined.

(** Two teardowns in a row. *)
Lemma cleanup_native_calls_witness :
  cleanup ready = (cleaned, Ret tt)
  /\ is_Some (LogosCore (bridge ready))
  /\ LogosCore (bridge cleaned) = LogosCore (bridge ready)
  /\ native_calls (trace cleaned)
     = (native_calls (trace ready)
        ++ [ENative (NVoid logos_core_cleanup)])%list
  /\ native_calls (trace (fst (cleanup cleaned)))
     = (native_calls (trace ready)
        ++ [ENative (NVoid logos_core_cleanup);
            ENative (NVoid logos_core_cleanup)])%list.
Proof.
  assert (H : cleanup ready = (cleaned, Ret tt)) by (vm_compute; reflexivity).
  assert (H' : cleanup cleaned = (fst (cleanup cleaned), Ret tt))
    by (vm_compute; reflexivity).
  assert (Hlib : is_Some (LogosCore (bridge ready))) by (vm_compute; eauto).
  destruct (cleanup_native_calls ready cleaned H) as (Hcore & _ & _ & _ & Hset).
  destruct (Hset Hlib) as [Hone Htwo].
  split; [exact H|]. split; [exact Hlib|]. split; [exact Hcore|].
  split; [exact Hone|exact (Htwo _ H')].
Defined.

(** An asynchronous call whose native call throws. *)
Lemma record_stored_before_native_call_witness :
  isInitialized (bridge faulty_ready) = true
  /\ @callPluginMethodAsync _ _ _ _ faulty_runtime "chat" "send" "[]" (HUser 7)
       faulty_ready
     = (fst (@callPluginMethodAsync _ _ _ _ faulty_runtime "chat" "send" "[]"
               (HUser 7) faulty_ready),
        Throw "call failed")
  /\ exists id,
      callbacks
        (bridge (fst (@callPluginMethodAsync _ _ _ _ faulty_runtime "chat"
                        "send" "[]" (HUser 7) faulty_ready)))
      !! id
      = Some (mkCallbackRecord (HUser 7) (_createFFICallback (HUser 7) id)).
Proof.
  assert (H : @callPluginMethodAsync _ _ _ _ faulty_runtime "chat" "send" "[]"
                (HUser 7) faulty_ready
              = (fst (@callPluginMethodAsync _ _ _ _ faulty_runtime "chat"
                        "send" "[]" (HUser 7) faulty_ready),
                 Throw "call failed")) by (vm_compute; reflexivity).
  split; [reflexivity|]. split; [exact H|].
  exact (proj1 (@record_stored_before_native_call _ _ _ _ faulty_runtime
                  "chat" "send" "[]" (HUser 7) faulty_ready _ "call failed"
                  eq_refl) H).
Defined.

(** The array at address 1000, read back from the result. *)
Lemma convertCStringArrayToJS_sound_witness :
  _convertCStringArrayToJS 3 (world ready) 1000 = Some ["chat"; "waku"]
  /\ ((1000 = 0 /\ ["chat"; "waku"] = [])
      \/ (1000 <> 0
          /\ exists ptrs : list Z,
              null_terminated (world ready) 1000 ptrs
              /\ ["chat"; "waku"] = map (readCString (world ready)) ptrs
              /\ (length ptrs < 3)%nat)).
Proof.
  assert (H : _convertCStringArrayToJS 3 (world ready) 1000
              = Some ["chat"; "waku"]) by reflexivity.
  split; [exact H|].
  exact (convertCStringArrayToJS_sound 3 (world ready) 1000 ["chat"; "waku"] H).
Defined.

(** The loaded plugins of the concrete runtime. *)
Lemma plugin_queries_read_native_witness :
  (isInitialized (bridge ready) = true
   /\ LogosCore (bridge ready) = Some (mkLibrary "/sdk/lib/liblogos_core.so")
   /\ native_ptr (world ready) logos_core_get_loaded_plugins
      = (world ready, Returns 1000)
   /\ 1000 <> 0
   /\ null_terminated (world ready) 1000 [2000; 2100]
   /\ (length [2000; 2100] < 8)%nat)
  /\ getLoadedPlugins 8 ready
     = (set_world (world ready)
          (log (ENative (NPtr logos_core_get_loaded_plugins)) ready),
        Ret ["chat"; "waku"]).
Proof.
  assert (Hnz : 1000 <> 0) by discriminate.
  assert (Hnt : null_terminated (world ready) 1000 [2000; 2100]).
  { split; [|reflexivity].
    intros [|[|i]] p Hp; simpl in Hp; inversion Hp; subst;
      split; (discriminate || reflexivity). }
  assert (Hlen : (length [2000; 2100] < 8)%nat) by (simpl; lia).
  split; [split_and!; (reflexivity || assumption)|].
  exact (proj2 (proj2 (plugin_queries_read_native 8 ready
                         (mkLibrary "/sdk/lib/liblogos_core.so")
                         logos_core_get_loaded_plugins (world ready)
                         eq_refl eq_refl))
           1000 [2000; 2100] eq_refl Hnz Hnt Hlen).
Defined.

End Instances.
